(** * Weather dashboard and sensor ingestion service (server.js)

    A shallow embedding of the Express application of [server.js]: the
    start-up sequence, the dashboard handler [GET /] with its MongoDB
    aggregation pipeline and timestamp formatting, and the ingestion
    handler [POST /api/sensor].

    Conventions.
    - Strings are sequences of UTF-8 bytes ([string]); MongoDB orders
      strings by their bytes under the default collation.
    - Instants are milliseconds since 1970-01-01T00:00:00Z ([Z]), as a
      BSON date and a JavaScript [Date] store them.
    - JavaScript numbers are IEEE 754 binary64 values ([spec_float]).
    - A collection is the list of its documents in insertion order; the
      [_id] key that the storage adds to every document is not
      represented.
    - What the storage and its driver do is taken as given: a sort is any
      function [sort_by], the pattern engine of [$regex] is any function
      [regex], the outcome of connecting is any function [connects], and
      a [storage_link] tells which awaited calls of a request are
      answered.  So is the environment of the process: its time zone is
      any function [LocalTZA] and whether a port can be bound any
      function [listens].  The properties hold for all of them, under the
      hypotheses they state; the examples run with [insertion_sort],
      [regex_fragment], [fixed_offset] and [one_transition]. *)

From Stdlib Require Import ZArith NArith Lia Ascii String List Bool.
From Stdlib Require Import Floats.SpecFloat.
From stdpp Require Import base option list gmap strings sorting.

Local Open Scope Z_scope.

#[local] Set Warnings "-register-all".

(** ** JavaScript values carried by a JSON request body *)

Abbreviation js_number := spec_float.

Definition NaN : js_number := S754_nan.
Definition pos_zero : js_number := S754_zero false.

Inductive js_value :=
| JNull
| JBool (b : bool)
| JNumber (n : js_number)
| JString (s : string)
| JArray (items : list js_value)
| JObject (members : list (string * js_value)).

(** *** StringToNumber (ECMA-262, 7.1.4.1.1) *)

Definition bytes (s : string) : list N :=
  map N_of_ascii (list_ascii_of_string s).

(** One [StrWhiteSpaceChar] (WhiteSpace or LineTerminator) at the head of
    a byte sequence: TAB, LF, VT, FF, CR, SP, U+00A0, U+1680,
    U+2000..U+200A, U+2028, U+2029, U+202F, U+205F, U+3000, U+FEFF. *)
Definition skip_ws_char (l : list N) : option (list N) :=
  match l with
  | c :: r =>
      if (9 <=? c)%N && (c <=? 13)%N || (c =? 32)%N then Some r
      else match c, r with
      | 194%N, 160%N :: r' => Some r'
      | 225%N, 154%N :: 128%N :: r' => Some r'
      | 226%N, 128%N :: d :: r' =>
          if (128 <=? d)%N && (d <=? 138)%N || (d =? 168)%N || (d =? 169)%N
             || (d =? 175)%N
          then Some r' else None
      | 226%N, 129%N :: 159%N :: r' => Some r'
      | 227%N, 128%N :: 128%N :: r' => Some r'
      | 239%N, 187%N :: 191%N :: r' => Some r'
      | _, _ => None
      end
  | [] => None
  end.

Fixpoint skip_ws (fuel : nat) (l : list N) : list N :=
  match fuel with
  | O => l
  | S fuel' =>
      match skip_ws_char l with
      | Some r => skip_ws fuel' r
      | None => l
      end
  end.

Definition only_ws (l : list N) : bool :=
  match skip_ws (length l) l with [] => true | _ => false end.

(** The value of a digit character in the given radix. *)
Definition digit_value (radix c : N) : option N :=
  let v :=
    if (48 <=? c)%N && (c <=? 57)%N then Some (c - 48)%N
    else if (97 <=? c)%N && (c <=? 102)%N then Some (c - 87)%N
    else if (65 <=? c)%N && (c <=? 70)%N then Some (c - 55)%N
    else None in
  match v with
  | Some d => if (d <? radix)%N then Some d else None
  | None => None
  end.

(** The longest prefix of digits, most significant first, and the rest. *)
Fixpoint span_digits (radix : N) (l : list N) : list N * list N :=
  match l with
  | c :: r =>
      match digit_value radix c with
      | Some d => let '(ds, rest) := span_digits radix r in (d :: ds, rest)
      | None => ([], l)
      end
  | [] => ([], [])
  end.

Definition digits_value (radix : N) (ds : list N) : N :=
  fold_left (fun acc d => (acc * radix + d)%N) ds 0%N.

(** The binary64 value nearest to [(-1)^neg * m * 10^e], ties to even. *)
Definition decimal_to_double (neg : bool) (m : N) (e : Z) : js_number :=
  match m with
  | N0 => S754_zero neg
  | Npos p =>
      if 0 <=? e
      then binary_round 53 1024 neg (p * Z.to_pos (10 ^ e))%positive 0
      else SFdiv 53 1024 (S754_finite neg p 0)
                         (S754_finite false (Z.to_pos (10 ^ (- e))) 0)
  end.

Definition integer_to_double (n : N) : js_number :=
  binary_normalize 53 1024 (Z.of_N n) 0 false.

(** [ExponentPart]: [e] or [E], an optional sign, at least one digit.
    Returns the exponent and the rest; without a well-formed exponent
    nothing is consumed. *)
Definition parse_exponent (l : list N) : Z * list N :=
  match l with
  | c :: r =>
      if (c =? 101)%N || (c =? 69)%N then
        let '(sgn, r1) :=
          match r with
          | 43%N :: r' => (false, r')
          | 45%N :: r' => (true, r')
          | _ => (false, r)
          end in
        match span_digits 10 r1 with
        | ([], _) => (0, l)
        | (ds, rest) =>
            let v := Z.of_N (digits_value 10 ds) in
            (if sgn : bool then - v else v, rest)
        end
      else (0, l)
  | [] => (0, l)
  end.

(** [StrUnsignedDecimalLiteral] followed by white space only. *)
Definition parse_unsigned_decimal (neg : bool) (l : list N) : js_number :=
  match l with
  | 73%N :: 110%N :: 102%N :: 105%N :: 110%N :: 105%N :: 116%N :: 121%N :: rest =>
      if only_ws rest then S754_infinity neg else NaN
  | _ =>
      let '(int_ds, r1) := span_digits 10 l in
      let '(frac_ds, r2) :=
        match r1 with
        | 46%N :: r' => span_digits 10 r'
        | _ => ([], r1)
        end in
      match int_ds, frac_ds with
      | [], [] => NaN
      | _, _ =>
          let '(ex, r3) := parse_exponent r2 in
          if only_ws r3
          then decimal_to_double neg (digits_value 10 (int_ds ++ frac_ds))
                                 (ex - Z.of_nat (length frac_ds))
          else NaN
      end
  end.

(** [NonDecimalIntegerLiteral] ([0x], [0o], [0b]; no sign) followed by
    white space only. *)
Definition parse_radix (radix : N) (l : list N) : js_number :=
  match span_digits radix l with
  | ([], _) => NaN
  | (ds, rest) =>
      if only_ws rest then integer_to_double (digits_value radix ds) else NaN
  end.

Definition StringToNumber (s : string) : js_number :=
  let l := bytes s in
  match skip_ws (length l) l with
  | [] => pos_zero
  | 48%N :: (120%N | 88%N) :: r => parse_radix 16 r
  | 48%N :: (111%N | 79%N) :: r => parse_radix 8 r
  | 48%N :: (98%N | 66%N) :: r => parse_radix 2 r
  | 43%N :: r => parse_unsigned_decimal false r
  | 45%N :: r => parse_unsigned_decimal true r
  | l' => parse_unsigned_decimal false l'
  end.

(** *** Number(value) on the values a JSON body can hold (ToNumber) *)

(** An object or an array is first converted to a primitive value
    (OrdinaryToPrimitive), which calls its [valueOf] and [toString]
    methods.  A parsed JSON object inherits both from [Object.prototype]
    unless it holds a key of that name, whose value no JSON text can make
    callable.  [valueOf] returns the object itself either way, so the
    conversion rests on [toString]: with an own key [toString] no method
    gives a primitive value and a [TypeError] is thrown.  An array is
    joined from the string forms of its elements, and throws when one of
    them does. *)
Fixpoint ToPrimitive_throws (value : js_value) : bool :=
  match value with
  | JObject members => existsb (λ m, (m.1 =? "toString")%string) members
  | JArray items => existsb ToPrimitive_throws items
  | _ => false
  end.

(** [None] stands for the [TypeError].  An object without an own key
    [toString] is converted through the string ["[object Object]"].  An
    array is converted through its string form, the elements joined by
    commas: the empty array gives the empty string, two or more elements
    give a string with a comma (not a numeric literal), and a single
    element gives that element's string form, where [null] is the empty
    string and a number reads back as itself (with [-0] printed as
    ["0"]). *)
Fixpoint Number (value : js_value) : option js_number :=
  match value with
  | JNull => Some pos_zero
  | JBool true => Some (integer_to_double 1)
  | JBool false => Some pos_zero
  | JNumber n => Some n
  | JString s => Some (StringToNumber s)
  | JArray items =>
      if existsb ToPrimitive_throws items then None
      else match items with
           | [] => Some pos_zero
           | [item] =>
               match item with
               | JNull => Some pos_zero
               | JBool _ => Some NaN
               | JNumber (S754_zero _) => Some pos_zero
               | JNumber n => Some n
               | JString s => Some (StringToNumber s)
               | JArray _ => Number item
               | JObject _ => Some NaN
               end
           | _ :: _ :: _ => Some NaN
           end
  | JObject members =>
      if existsb (λ m, (m.1 =? "toString")%string) members then None
      else Some NaN
  end.

(** ** Calendar fields of an instant (ECMA-262, 21.4.1) *)

Definition msPerDay : Z := 86400000.
Definition msPerHour : Z := 3600000.
Definition msPerMinute : Z := 60000.
Definition msPerSecond : Z := 1000.

Definition Day (t : Z) : Z := t / msPerDay.
Definition TimeWithinDay (t : Z) : Z := t mod msPerDay.

Definition DaysInYear (y : Z) : Z :=
  if negb (y mod 4 =? 0) then 365
  else if negb (y mod 100 =? 0) then 366
  else if negb (y mod 400 =? 0) then 365
  else 366.

Definition DayFromYear (y : Z) : Z :=
  365 * (y - 1970) + (y - 1969) / 4 - (y - 1901) / 100 + (y - 1601) / 400.

(** The year [y] with [DayFromYear y <= day < DayFromYear (y + 1)]: an
    estimate from the mean length of a year, then one step of
    adjustment. *)
Definition YearFromDay (day : Z) : Z :=
  let y := 1970 + (400 * day) / 146097 in
  if day <? DayFromYear y then y - 1
  else if DayFromYear (y + 1) <=? day then y + 1
  else y.

Definition YearFromTime (t : Z) : Z := YearFromDay (Day t).

Definition InLeapYear (t : Z) : Z :=
  if DaysInYear (YearFromTime t) =? 366 then 1 else 0.

Definition DayWithinYear (t : Z) : Z := Day t - DayFromYear (YearFromTime t).

(** Month number, 0 for January to 11 for December. *)
Definition MonthFromTime (t : Z) : Z :=
  let d := DayWithinYear t in
  let leap := InLeapYear t in
  if d <? 31 then 0
  else if d <? 59 + leap then 1
  else if d <? 90 + leap then 2
  else if d <? 120 + leap then 3
  else if d <? 151 + leap then 4
  else if d <? 181 + leap then 5
  else if d <? 212 + leap then 6
  else if d <? 243 + leap then 7
  else if d <? 273 + leap then 8
  else if d <? 304 + leap then 9
  else if d <? 334 + leap then 10
  else 11.

(** Day of the month, from 1. *)
Definition DateFromTime (t : Z) : Z :=
  let d := DayWithinYear t in
  let leap := InLeapYear t in
  match MonthFromTime t with
  | 0 => d + 1
  | 1 => d - 30
  | 2 => d - 58 - leap
  | 3 => d - 89 - leap
  | 4 => d - 119 - leap
  | 5 => d - 150 - leap
  | 6 => d - 180 - leap
  | 7 => d - 211 - leap
  | 8 => d - 242 - leap
  | 9 => d - 272 - leap
  | 10 => d - 303 - leap
  | _ => d - 333 - leap
  end.

Definition HourFromTime (t : Z) : Z := (t / msPerHour) mod 24.
Definition MinFromTime (t : Z) : Z := (t / msPerMinute) mod 60.
Definition SecFromTime (t : Z) : Z := (t / msPerSecond) mod 60.

(** A [Date] holds a time value only within 100 000 000 days of the
    epoch; any other number makes it an invalid date. *)
Definition max_time : Z := 8640000000000000.

Definition isValid (t : Z) : bool := (- max_time <=? t) && (t <=? max_time).

(** ** Time formatter: formatInTimeZone (date-fns-tz) *)

(** Decimal digits of a non-negative integer, as [Number.prototype.toString]
    prints them. *)
Definition digit_char (d : Z) : ascii := ascii_of_N (48 + Z.to_N d).

Fixpoint toString_aux (fuel : nat) (n : Z) (acc : string) : string :=
  match fuel with
  | O => acc
  | S fuel' =>
      let acc' := String (digit_char (n mod 10)) acc in
      if n <? 10 then acc' else toString_aux fuel' (n / 10) acc'
  end.

Definition toString (n : Z) : string :=
  toString_aux (S (Z.to_nat (Z.log2 n))) n "".

Fixpoint repeat_char (c : ascii) (n : nat) : string :=
  match n with
  | O => ""
  | S n' => String c (repeat_char c n')
  end.

Definition padStart (s : string) (targetLength : nat) (c : ascii) : string :=
  (repeat_char c (targetLength - String.length s) ++ s)%string.

(** date-fns [addLeadingZeros]: the sign, then the absolute value padded
    with zeros on the left up to [targetLength] digits. *)
Definition addLeadingZeros (number : Z) (targetLength : nat) : string :=
  ((if (number <? 0)%Z then "-" else "")
   ++ padStart (toString (Z.abs number)) targetLength "0")%string.

(** The offset of the zone [Asia/Bangkok] from UTC at an instant, in
    milliseconds (IANA time zone database): Bangkok mean time, 6:42:04
    ahead of UTC, until 1 April 1920 local time, and UTC+7 since. *)
Definition bangkok_utc7_start : Z := -1570084924000.

Definition timeZoneOffset (t : Z) : Z :=
  if t <? bangkok_utc7_start then 24124000 else 25200000.

(** The pattern [d/M/yyyy HH:mm:ss] applied to the local time of a date.
    The token [yyyy] prints the year of the era: year 0 and earlier
    count backwards from 1. *)
Definition format (wall : Z) : string :=
  let signedYear := YearFromTime wall in
  let year := if 0 <? signedYear then signedYear else 1 - signedYear in
  (addLeadingZeros (DateFromTime wall) 1 ++ "/"
   ++ addLeadingZeros (MonthFromTime wall + 1)%Z 1 ++ "/"
   ++ addLeadingZeros year 4 ++ " "
   ++ addLeadingZeros (HourFromTime wall) 2 ++ ":"
   ++ addLeadingZeros (MinFromTime wall) 2 ++ ":"
   ++ addLeadingZeros (SecFromTime wall) 2)%string.

(** *** Local time of the server (ECMA-262, 21.4.1.25 to 21.4.1.31) *)

Definition MakeTime (hour min sec ms : Z) : Z :=
  hour * msPerHour + min * msPerMinute + sec * msPerSecond + ms.

(** The day number of the given day of the month; months count from 0
    and may overflow into the following years. *)
Definition MakeDay (year month date : Z) : Z :=
  let ym := year + month / 12 in
  let mn := month mod 12 in
  let leap := if DaysInYear ym =? 366 then 1 else 0 in
  let first :=
    match mn with
    | 0 => 0
    | 1 => 31
    | 2 => 59 + leap
    | 3 => 90 + leap
    | 4 => 120 + leap
    | 5 => 151 + leap
    | 6 => 181 + leap
    | 7 => 212 + leap
    | 8 => 243 + leap
    | 9 => 273 + leap
    | 10 => 304 + leap
    | _ => 334 + leap
    end in
  DayFromYear ym + first + date - 1.

Definition MakeDate (day time : Z) : Z := day * msPerDay + time.

(** The time value of a [Date], or [None] for an invalid date ([NaN]). *)
Definition TimeClip (time : Z) : option Z :=
  if isValid time then Some time else None.

Section ServerZone.

(** [LocalTZA t isUTC]: the offset of the time zone of the server process
    from UTC, in milliseconds.  With [isUTC], [t] is an instant and the
    offset is the one in force at [t]; without, [t] is a local time and
    the offset is the one by which it is read, which for a local time
    that a transition skips or repeats is the offset in force before the
    transition.  The zone is set by the environment of the process. *)
Variable LocalTZA : Z → bool → Z.

Definition LocalTime (t : Z) : Z := t + LocalTZA t true.

Definition UTC (t : Z) : Z := t - LocalTZA t false.

(** [Date.prototype.setFullYear(year, month, date)] and
    [Date.prototype.setHours(hour, min, sec, ms)] on a date that holds
    [tv]: the fields of the local time are replaced and the result is
    read back as a local time. *)
Definition setFullYear (tv : option Z) (year month date : Z) : option Z :=
  let t := match tv with Some t => LocalTime t | None => 0 end in
  TimeClip (UTC (MakeDate (MakeDay year month date) (TimeWithinDay t))).

Definition setHours (tv : option Z) (hour min sec ms : Z) : option Z :=
  t ← tv;
  TimeClip (UTC (MakeDate (Day (LocalTime t)) (MakeTime hour min sec ms))).

(** date-fns-tz [toZonedTime(date, 'Asia/Bangkok')]: a [Date] of the
    server's zone whose local fields are the wall-clock fields of Bangkok
    at [date].  The offset of Bangkok is looked up for a valid [date]
    only, and the fields are set in two steps on a date that starts at
    the epoch. *)
Definition toZonedTime (date : Z) : option Z :=
  if isValid date then
    d ← TimeClip (date + timeZoneOffset date);
    let resultDate := Some 0 in
    let resultDate :=
      setFullYear resultDate (YearFromTime d) (MonthFromTime d)
        (DateFromTime d) in
    setHours resultDate (HourFromTime d) (MinFromTime d) (SecFromTime d)
      (d mod msPerSecond)
  else None.

(** [formatInTimeZone(date, 'Asia/Bangkok', 'd/M/yyyy HH:mm:ss')]: the
    local fields of the zoned date, formatted.  [None] stands for the
    [RangeError] thrown on an invalid date. *)
Definition formatInTimeZone (date : Z) : option string :=
  zoned ← toZonedTime date;
  Some (format (LocalTime zoned)).

End ServerZone.

(** ** Data model *)

Module WeatherRecord.
(** A document of the collection [records]; [readings] holds the
    weather fields that this service only passes on to the view. *)
Record t := mk {
  city : string;
  region : string;
  timestamp : Z;
  readings : list (string * js_value)
}.
End WeatherRecord.

Module SensorReading.
(** A document of the collection [sensors]. *)
Record t := mk {
  temperature : js_number;
  humidity : js_number;
  timestamp : Z
}.
End SensorReading.

(** The database [weatherdb]. *)
Record database := {
  records : list WeatherRecord.t;
  sensors : list SensorReading.t
}.

(** A document once the handler has set its [formattedTimestamp]. *)
Record Formatted (A : Type) := {
  document : A;
  formattedTimestamp : string
}.
Arguments document {A} _.
Arguments formattedTimestamp {A} _.

(** A document that the last [$group] stage emits. *)
Record RegionView (A : Type) := {
  _id : string;
  provinces : list A
}.
Arguments _id {A} _.
Arguments provinces {A} _.

(** The locals handed to the template [index]. *)
Record dashboard := {
  regions : list (RegionView (Formatted WeatherRecord.t));
  sensorData : list (Formatted SensorReading.t);
  query : string;
  locale : string
}.

Inductive response :=
| Rendered (view : string) (locals : dashboard)
| Sent (status : Z) (body : string)
| Json (status : Z) (message : string).

(** Whether the storage answers each kind of operation of a request; a
    storage that does not answer makes the awaited call throw. *)
Record storage_link := {
  aggregate_answers : bool;
  find_answers : bool;
  insertOne_answers : bool
}.

(** ** Aggregation pipeline *)

(** The filter document of the [$match] stage: [{}] or
    [{ city: { $regex: pattern, $options: options } }]. *)
Inductive match_stage :=
| MatchAll
| MatchCityRegex (pattern options : string).

Definition matchStage (searchQuery : string) : match_stage :=
  if (searchQuery =? "")%string then MatchAll
  else MatchCityRegex searchQuery "i".

(** Sort orders: [{ timestamp: -1 }], [{ city: 1 }] and [{ _id: 1 }]. *)
Definition timestamp_desc (a b : WeatherRecord.t) : bool :=
  WeatherRecord.timestamp b <=? WeatherRecord.timestamp a.

Definition city_asc (a b : WeatherRecord.t) : bool :=
  String.leb (WeatherRecord.city a) (WeatherRecord.city b).

Definition id_asc {A} (a b : RegionView A) : bool :=
  String.leb (_id a) (_id b).

Definition sensor_timestamp_desc (a b : SensorReading.t) : bool :=
  SensorReading.timestamp b <=? SensorReading.timestamp a.

(** [$group] by city with [doc: { $first: "$$ROOT" }]: the accumulator
    keeps, for each city, the first document that reaches it. *)
Definition group_first (docs : list WeatherRecord.t)
  : gmap string WeatherRecord.t :=
  foldl (fun groups d =>
           match groups !! WeatherRecord.city d with
           | Some _ => groups
           | None => <[WeatherRecord.city d := d]> groups
           end) ∅ docs.

(** [$group] by region with [provinces: { $push: "$$ROOT" }]: each
    document is appended to the array of its region. *)
Definition group_push (docs : list WeatherRecord.t)
  : gmap string (list WeatherRecord.t) :=
  foldl (fun groups d =>
           <[WeatherRecord.region d :=
               default [] (groups !! WeatherRecord.region d) ++ [d]]> groups)
        ∅ docs.

Section Storage.

(** [$sort] and [cursor.sort]: the storage returns the documents in an
    order of its choice among those that agree with the comparison. *)
Variable sort_by : ∀ A : Type, (A → A → bool) → list A → list A.

(** [$regex] with [$options]: the search predicate of a pattern, or
    [None] when the storage rejects the pattern. *)
Variable regex : string → string → option (string → bool).

(** The time zone of the server process, see [LocalTime]. *)
Variable LocalTZA : Z → bool → Z.

Definition run_match (stage : match_stage) (docs : list WeatherRecord.t)
  : option (list WeatherRecord.t) :=
  match stage with
  | MatchAll => Some docs
  | MatchCityRegex pattern options =>
      test ← regex pattern options;
      Some (filter (λ d, test (WeatherRecord.city d) = true) docs)
  end.

(** [collection.aggregate(pipeline).toArray()] on [records], stage by
    stage: [$match], [$sort] by timestamp descending, [$group] by city
    keeping the first document, [$replaceRoot] to that document, [$sort]
    by city, [$group] by region pushing the documents, [$sort] by [_id].
    A [$group] stage emits its groups in no particular order: here, the
    order in which the map lists them. *)
Definition aggregate (link : storage_link) (stage : match_stage)
    (docs : list WeatherRecord.t) : option (list (RegionView WeatherRecord.t)) :=
  if aggregate_answers link then
    matched ← run_match stage docs;
    let sorted := sort_by _ timestamp_desc matched in
    let latest := (map_to_list (group_first sorted)).*2 in
    let by_city := sort_by _ city_asc latest in
    let grouped :=
      (λ g, {| _id := g.1; provinces := g.2 |})
        <$> map_to_list (group_push by_city) in
    Some (sort_by _ id_asc grouped)
  else None.

(** [find({}).sort({ timestamp: -1 }).limit(5).toArray()] on [sensors]. *)
Definition find_recent (link : storage_link) (docs : list SensorReading.t)
  : option (list SensorReading.t) :=
  if find_answers link
  then Some (take 5 (sort_by _ sensor_timestamp_desc docs))
  else None.

(** ** Dashboard handler: GET / *)

Definition format_province (province : WeatherRecord.t)
  : option (Formatted WeatherRecord.t) :=
  text ← formatInTimeZone LocalTZA (WeatherRecord.timestamp province);
  Some {| document := province; formattedTimestamp := text |}.

Definition format_region (r : RegionView WeatherRecord.t)
  : option (RegionView (Formatted WeatherRecord.t)) :=
  formatted ← mapM format_province (provinces r);
  Some {| _id := _id r; provinces := formatted |}.

Definition format_sensor (sensor : SensorReading.t)
  : option (Formatted SensorReading.t) :=
  text ← formatInTimeZone LocalTZA (SensorReading.timestamp sensor);
  Some {| document := sensor; formattedTimestamp := text |}.

(** The body of the [try] block up to the call of [res.render]; [None]
    when a step throws. *)
Definition dashboard_locals (link : storage_link) (q : option string)
    (db : database) : option dashboard :=
  let searchQuery := default ""%string q in
  regions ← aggregate link (matchStage searchQuery) (records db);
  regions ← mapM format_region regions;
  sensorData ← find_recent link (sensors db);
  sensorData ← mapM format_sensor sensorData;
  Some {| regions := regions; sensorData := sensorData;
          query := searchQuery; locale := "th-TH" |}.

Definition server_error_text : string := "เกิดข้อผิดพลาด".

Definition get_root (link : storage_link) (q : option string)
    (db : database) : database * response :=
  match dashboard_locals link q db with
  | Some locals => (db, Rendered "index" locals)
  | None => (db, Sent 500 server_error_text)
  end.

End Storage.

(** ** Ingestion handler: POST /api/sensor *)

(** The object literal of the handler; [None] when a coercion throws. *)
Definition newSensorRecord (temperature humidity : js_value) (now : Z)
  : option SensorReading.t :=
  temperature ← Number temperature;
  humidity ← Number humidity;
  Some {| SensorReading.temperature := temperature;
          SensorReading.humidity := humidity;
          SensorReading.timestamp := now |}.

Definition insertOne (doc : SensorReading.t) (db : database) : database :=
  {| records := records db; sensors := sensors db ++ [doc] |}.

(** [body] is the parsed JSON object of the request; a key that it does
    not hold reads as [undefined].  [now] is the server clock. *)
Definition post_sensor (link : storage_link) (now : Z)
    (body : gmap string js_value) (db : database) : database * response :=
  match body !! "temperature", body !! "humidity" with
  | Some temperature, Some humidity =>
      match newSensorRecord temperature humidity now with
      | Some doc =>
          if insertOne_answers link
          then (insertOne doc db, Json 201 "Sensor data saved successfully.")
          else (db, Json 500 "Internal Server Error")
      | None => (db, Json 500 "Internal Server Error")
      end
  | _, _ => (db, Json 400 "Bad Request: Missing temperature or humidity.")
  end.

(** ** Start-up *)

Inductive process :=
| Exited (code : Z)
| Listening (port : string).

Section Startup.

(** Whether [new MongoClient(uri)] followed by [client.connect()]
    succeeds. *)
Variable connects : string → bool.

(** Whether [app.listen(port)] gets the port.  It does not when the port
    is out of range or cannot be bound; the error is handled nowhere in
    the program and ends the process. *)
Variable listens : string → bool.

Definition startsWith (s searchString : string) : bool :=
  String.prefix searchString s.

(** [PORT] and [MONGO_URI] are the environment variables; [None] is an
    unset variable. *)
Definition main (PORT MONGO_URI : option string) : process :=
  match MONGO_URI with
  | None => Exited 1
  | Some uri =>
      if (uri =? "")%string || negb (startsWith uri "mongodb") then Exited 1
      else if connects uri then
        let port := match PORT with
                    | Some p => if (p =? "")%string then "3000" else p
                    | None => "3000"
                    end in
        if listens port then Listening port else Exited 1
      else Exited 1
  end.

End Startup.

(** ** A sorting function and a pattern engine to run the handlers with *)

Fixpoint insert_by {A} (le : A → A → bool) (x : A) (l : list A) : list A :=
  match l with
  | [] => [x]
  | y :: l' => if le x y then x :: l else y :: insert_by le x l'
  end.

Definition insertion_sort (A : Type) (le : A → A → bool) (l : list A)
  : list A :=
  foldr (insert_by le) [] l.

(** The part of the regular-expression language made of ASCII characters
    that stand for themselves and of the dot, with the option [i]. *)
Inductive atom :=
| Lit (c : ascii)
| Dot.

Definition is_metachar (c : ascii) : bool :=
  existsb (Ascii.eqb c)
    (list_ascii_of_string "\^$.[]|()?*+{}").

Fixpoint parse_atoms (pattern : string) : option (list atom) :=
  match pattern with
  | EmptyString => Some []
  | String c rest =>
      a ← (if Ascii.eqb c "." then Some Dot
           else if is_metachar c || (128 <=? N_of_ascii c)%N then None
           else Some (Lit c));
      atoms ← parse_atoms rest;
      Some (a :: atoms)
  end.

(** ASCII case folding. *)
Definition lower (c : ascii) : ascii :=
  let n := N_of_ascii c in
  if (65 <=? n)%N && (n <=? 90)%N then ascii_of_N (n + 32) else c.

Definition atom_matches (a : atom) (c : ascii) : bool :=
  match a with
  | Lit x => Ascii.eqb (lower x) (lower c)
  | Dot => negb (Ascii.eqb c "010")
  end.

Fixpoint match_here (atoms : list atom) (subject : string) : bool :=
  match atoms, subject with
  | [], _ => true
  | a :: atoms', String c subject' =>
      atom_matches a c && match_here atoms' subject'
  | _ :: _, EmptyString => false
  end.

Fixpoint search (atoms : list atom) (subject : string) : bool :=
  match_here atoms subject
  || match subject with
     | EmptyString => false
     | String _ subject' => search atoms subject'
     end.

(** An engine that agrees with the storage's on this part of the
    language over ASCII subjects, and rejects every other pattern. *)
Definition regex_fragment (pattern options : string)
  : option (string → bool) :=
  if (options =? "i")%string then search <$> parse_atoms pattern else None.

(** Server zones: one that keeps a fixed offset from UTC, and one whose
    offset changes once, at the instant [transition]. *)
Definition fixed_offset (offset : Z) : Z → bool → Z := λ _ _, offset.

Definition one_transition (transition before after : Z) : Z → bool → Z :=
  λ t isUTC,
    if isUTC : bool
    then if t <? transition then before else after
    else if t <? transition + Z.max before after then before else after.

Definition always_up : storage_link :=
  {| aggregate_answers := true; find_answers := true;
     insertOne_answers := true |}.

(** ** Vocabulary of the statements *)

Definition bad_request : response :=
  Json 400 "Bad Request: Missing temperature or humidity.".

Definition created : response := Json 201 "Sensor data saved successfully.".

(** What a rendered dashboard holds, given the documents that the two
    queries returned: every region with every province, every sensor
    reading, each with its formatted timestamp. *)
Definition complete_dashboard (LocalTZA : Z → bool → Z)
    (regs : list (RegionView WeatherRecord.t))
    (readings : list SensorReading.t) (locals : dashboard) : Prop :=
  Forall2 (λ r v, _id v = _id r
                  ∧ document <$> provinces v = provinces r
                  ∧ Forall (λ f, formatInTimeZone LocalTZA
                                   (WeatherRecord.timestamp (document f))
                                 = Some (formattedTimestamp f))
                           (provinces v))
          regs (regions locals)
  ∧ document <$> sensorData locals = readings
  ∧ Forall (λ f, formatInTimeZone LocalTZA
                   (SensorReading.timestamp (document f))
                 = Some (formattedTimestamp f)) (sensorData locals).

Definition all_provinces {A} (regs : list (RegionView A)) : list A :=
  mjoin (provinces <$> regs).

(** *** The Gregorian calendar, to state what the formatter prints *)

(** Length of a month, from 1 for January to 12 for December. *)
Definition days_in_month (year month : Z) : Z :=
  match month with
  | 2 => if DaysInYear year =? 366 then 29 else 28
  | 4 | 6 | 9 | 11 => 30
  | _ => 31
  end.

Definition days_before_month (year month : Z) : Z :=
  foldr Z.add 0 (days_in_month year <$> seqZ 1 (month - 1)).

(** The instant of a civil date and time of day, read as UTC. *)
Definition civil_time (year month day hour minute second ms : Z) : Z :=
  (DayFromYear year + days_before_month year month + (day - 1)) * msPerDay
  + hour * msPerHour + minute * msPerMinute + second * msPerSecond + ms.

(** *** Decimal texts, to state what the formatter prints *)

Definition is_digit (c : ascii) : bool :=
  (48 <=? N_of_ascii c)%N && (N_of_ascii c <=? 57)%N.

Fixpoint decimal_value_from (acc : Z) (s : string) : option Z :=
  match s with
  | EmptyString => Some acc
  | String c rest =>
      if is_digit c
      then decimal_value_from (10 * acc + (Z.of_N (N_of_ascii c) - 48)) rest
      else None
  end.

(** The number that a non-empty string of decimal digits denotes. *)
Definition decimal_value (s : string) : option Z :=
  match s with
  | EmptyString => None
  | _ => decimal_value_from 0 s
  end.

Definition no_leading_zero (s : string) : Prop :=
  match s with
  | String c _ => c ≠ "0"%char
  | EmptyString => True
  end.

(** What it means for [s] to be the decimal digits of [n]. *)
Definition digits_of (s : string) (n : Z) : Prop :=
  (1 ≤ String.length s)%nat
  ∧ (∀ a rest, decimal_value_from a (s ++ rest)
               = decimal_value_from (a * 10 ^ Z.of_nat (String.length s) + n)
                   rest)
  ∧ ((2 ≤ String.length s)%nat → 10 ^ (Z.of_nat (String.length s) - 1) ≤ n)
  ∧ (1 ≤ n → no_leading_zero s).

(** The filter as the specification words it: the city contains the
    search string as a substring, letter case ignored. *)
Fixpoint to_lower (s : string) : string :=
  match s with
  | EmptyString => EmptyString
  | String c rest => String (lower c) (to_lower rest)
  end.

Fixpoint is_substring (needle haystack : string) : bool :=
  String.prefix needle haystack
  || match haystack with
     | EmptyString => false
     | String _ rest => is_substring needle rest
     end.

Definition contains_ignoring_case (q city : string) : bool :=
  is_substring (to_lower q) (to_lower city).

(** A search string without any character that the pattern language
    treats specially. *)
Definition plain (q : string) : bool :=
  forallb (λ c, (N_of_ascii c <? 128)%N && negb (is_metachar c))
          (list_ascii_of_string q).

(** ** Example data *)

Definition bangkok_new : WeatherRecord.t :=
  WeatherRecord.mk "Bangkok" "Central" 1709632800000
    [("temp", JNumber (integer_to_double 34))].
Definition bangkok_old : WeatherRecord.t :=
  WeatherRecord.mk "Bangkok" "Central" 1709629200000
    [("temp", JNumber (integer_to_double 31))].
Definition ayutthaya : WeatherRecord.t :=
  WeatherRecord.mk "Ayutthaya" "Central" 1709630000000 [].
Definition chiang_mai : WeatherRecord.t :=
  WeatherRecord.mk "Chiang Mai" "North" 1709631000000 [].
Definition phuket : WeatherRecord.t :=
  WeatherRecord.mk "Phuket" "South" 1709625600000 [].

Definition sample_records : list WeatherRecord.t :=
  [bangkok_old; phuket; bangkok_new; chiang_mai; ayutthaya].

Definition sample_regions : list (RegionView WeatherRecord.t) :=
  [ {| _id := "Central"; provinces := [ayutthaya; bangkok_new] |};
    {| _id := "North"; provinces := [chiang_mai] |};
    {| _id := "South"; provinces := [phuket] |} ].

Definition sample_sensors : list SensorReading.t :=
  (λ t, SensorReading.mk (integer_to_double 25) (integer_to_double 60) t)
    <$> [1700000003000; 1700000001000; 1700000007000; 1700000002000;
         1700000006000; 1700000004000; 1700000005000].

Definition sample_recent : list SensorReading.t :=
  (λ t, SensorReading.mk (integer_to_double 25) (integer_to_double 60) t)
    <$> [1700000007000; 1700000006000; 1700000005000; 1700000004000;
         1700000003000].

Definition sample_db : database :=
  {| records := sample_records; sensors := sample_sensors |}.

Definition one_reading_db : database :=
  {| records := [];
     sensors := [SensorReading.mk (integer_to_double 25) (integer_to_double 60)
                   1700000003000] |}.

Definition posted_body : gmap string js_value :=
  {[ "temperature" := JString "31";
     "humidity" := JNumber (integer_to_double 70) ]}.

(** The dashboard after [posted_body] has been stored in
    [one_reading_db] at 1700000009000. *)
Definition posted_locals : dashboard :=
  {| regions := [];
     sensorData :=
       [ {| document := SensorReading.mk (integer_to_double 31)
                          (integer_to_double 70) 1700000009000;
            formattedTimestamp := "15/11/2023 05:13:29" |};
         {| document := SensorReading.mk (integer_to_double 25)
                          (integer_to_double 60) 1700000003000;
            formattedTimestamp := "15/11/2023 05:13:23" |} ];
     query := "";
     locale := "th-TH" |}.

(** ** Requests served one after another *)

(** A request for one of the two routes of the application: [GET /] with
    its query parameter [q], or [POST /api/sensor] with its JSON body,
    served when the server clock shows [now]. *)
Inductive request :=
| GetRoot (q : option string)
| PostSensor (now : Z) (body : gmap string js_value).

Section Server.

Variable sort_by : ∀ A : Type, (A → A → bool) → list A → list A.
Variable regex : string → string → option (string → bool).
Variable LocalTZA : Z → bool → Z.

Definition serve (link : storage_link) (req : request) (db : database)
  : database * response :=
  match req with
  | GetRoot q => get_root sort_by regex LocalTZA link q db
  | PostSensor now body => post_sensor link now body db
  end.

(** Each request comes with the state of the storage link while it is
    served; the responses are listed in the order of the requests. *)
Fixpoint serve_all (reqs : list (storage_link * request)) (db : database)
  : database * list response :=
  match reqs with
  | [] => (db, [])
  | (link, req) :: rest =>
      let '(db1, res) := serve link req db in
      let '(db2, ress) := serve_all rest db1 in
      (db2, res :: ress)
  end.

End Server.

Definition is_created (res : response) : bool :=
  match res with
  | Json status _ => status =? 201
  | _ => false
  end.

(** The clocks of the [POST /api/sensor] requests of a list. *)
Definition post_clocks (reqs : list (storage_link * request)) : list Z :=
  omap (λ lr, match lr.2 with
              | PostSensor now _ => Some now
              | GetRoot _ => None
              end) reqs.

(** ** The shared connection handle *)

Module Connection.
(** The module variable [db], unset until the connection is made, and
    the number of times [client.connect()] has been called. *)
Record t := mk {
  db : option string;
  connect_calls : nat
}.
End Connection.

(** [connectDB()]: [connected] tells whether [client.connect()] would
    succeed if called now; [None] stands for [process.exit(1)]. *)
Definition connectDB (connected : bool) (st : Connection.t)
  : option Connection.t :=
  match Connection.db st with
  | Some _ => Some st
  | None =>
      if connected
      then Some {| Connection.db := Some "weatherdb"%string;
                   Connection.connect_calls := S (Connection.connect_calls st) |}
      else None
  end.

(** Calls of [connectDB()] one after another, as long as the process
    lives. *)
Fixpoint connectDB_calls (outcomes : list bool) (st : Connection.t)
  : option Connection.t :=
  match outcomes with
  | [] => Some st
  | connected :: rest =>
      st' ← connectDB connected st;
      connectDB_calls rest st'
  end.

Definition not_connected : Connection.t :=
  {| Connection.db := None; Connection.connect_calls := 0 |}.

(** ** Vocabulary of the statements on coerced strings *)

(** A string made of ASCII white space only: TAB, LF, VT, FF, CR, SP. *)
Definition blank (s : string) : bool :=
  forallb (λ c, (9 <=? c)%N && (c <=? 13)%N || (c =? 32)%N) (bytes s).

(** An ASCII letter other than [I], with which [Infinity] starts. *)
Definition plain_letter (c : ascii) : bool :=
  let n := N_of_ascii c in
  ((65 <=? n)%N && (n <=? 90)%N || (97 <=? n)%N && (n <=? 122)%N)
  && negb (n =? 73)%N.

(** * Properties *)

(** ** Properties of the ingestion handler *)

(** C4, as the code has it: a field is missing when the body does not
    hold its key (it reads as [undefined]); a JSON [null] is a value like
    any other.  A request in which [temperature] or [humidity] is missing
    is answered with status 400 and the message
    "Bad Request: Missing temperature or humidity.", and both collections
    are left as they were. *)
Theorem post_sensor_missing_field link now (body : gmap string js_value) db :
  body !! "temperature" = None ∨ body !! "humidity" = None →
  post_sensor link now body db = (db, bad_request).
Proof.
  intros Hmissing. unfold post_sensor.
  destruct (body !! "temperature") as [t|]; [|done].
  destruct (body !! "humidity") as [h|]; [|done].
  destruct Hmissing; discriminate.
Qed.

Lemma post_sensor_missing_field_witness :
  post_sensor always_up 1700000000000
    {[ "temperature" := JNumber (integer_to_double 25) ]}
    {| records := []; sensors := [] |}
  = ({| records := []; sensors := [] |}, bad_request).
Proof.
  apply post_sensor_missing_field. right. vm_compute. reflexivity.
Defined.

(** C4 fails for [null]: the body [{ temperature: null, humidity: 60 }]
    is accepted with status 201 and a reading with temperature [+0] is
    stored. *)
Lemma post_sensor_null_is_accepted :
  let body : gmap string js_value :=
    {[ "temperature" := JNull; "humidity" := JNumber (integer_to_double 60) ]} in
  let db := {| records := []; sensors := [] |} in
  body !! "temperature" = Some JNull
  ∧ post_sensor always_up 1700000000000 body db
    = ({| records := [];
          sensors := [SensorReading.mk pos_zero (integer_to_double 60)
                        1700000000000] |},
       Json 201 "Sensor data saved successfully.")
  ∧ post_sensor always_up 1700000000000 body db ≠ (db, bad_request).
Proof. vm_compute. split; [done|]. split; [done|]. discriminate. Qed.

(** Which values [Number] cannot convert: those whose conversion to a
    primitive value throws. *)
Lemma Number_None_iff : ∀ value,
  Number value = None ↔ ToPrimitive_throws value = true.
Proof.
  fix IH 1. intros [| [|] | n | s | items | members]; simpl; try done.
  - destruct (existsb ToPrimitive_throws items) eqn:Hthrows; [done|].
    split; [|done].
    destruct items as [|item [|item' items]]; [done| |done].
    pose proof (IH item) as IHitem.
    simpl in Hthrows. rewrite orb_false_r in Hthrows.
    destruct item as [| b | [sign| | |] | s | inner | members]; try done.
    intros Hinner. apply IHitem in Hinner. congruence.
  - by destruct (existsb _ members).
Qed.

(** C5, as the code has it: when [temperature] and [humidity] are both
    held by the body, [Number] converts both without throwing and the
    storage accepts the insert, [sensors] grows by exactly one reading,
    whose temperature and humidity are the converted values ([NaN] for a
    text that is not numeric) and whose timestamp is the server clock,
    [records] is left as it was and the answer is status 201.  When a
    conversion throws, nothing is handed to the storage and the answer is
    status 500; when the storage does not accept the insert, the answer
    is status 500 as well. *)
Theorem post_sensor_persists link now (body : gmap string js_value) db
    temperature humidity :
  body !! "temperature" = Some temperature →
  body !! "humidity" = Some humidity →
  (∀ t h,
     Number temperature = Some t → Number humidity = Some h →
     insertOne_answers link = true →
     post_sensor link now body db
     = ({| records := records db;
           sensors := sensors db
                      ++ [ {| SensorReading.temperature := t;
                              SensorReading.humidity := h;
                              SensorReading.timestamp := now |} ] |},
        created))
  ∧ (ToPrimitive_throws temperature = true
     ∨ ToPrimitive_throws humidity = true →
     post_sensor link now body db = (db, Json 500 "Internal Server Error"))
  ∧ (insertOne_answers link = false →
     (post_sensor link now body db).2 = Json 500 "Internal Server Error").
Proof.
  intros Ht Hh. unfold post_sensor, newSensorRecord. rewrite Ht, Hh.
  split; [|split].
  - intros t h -> -> ->. reflexivity.
  - intros [Hthrows|Hthrows]; apply Number_None_iff in Hthrows.
    + by rewrite Hthrows.
    + rewrite Hthrows. by destruct (Number temperature).
  - intros ->. destruct (Number temperature); [|done].
    by destruct (Number humidity).
Qed.

Lemma post_sensor_persists_witness :
  post_sensor always_up 1700000000000
    {[ "temperature" := JString "abc";
       "humidity" := JNumber (integer_to_double 60) ]}
    {| records := []; sensors := [] |}
  = ({| records := [];
        sensors := [SensorReading.mk NaN (integer_to_double 60)
                      1700000000000] |},
     created).
Proof.
  destruct (post_sensor_persists always_up 1700000000000
              {[ "temperature" := JString "abc";
                 "humidity" := JNumber (integer_to_double 60) ]}
              {| records := []; sensors := [] |}
              (JString "abc") (JNumber (integer_to_double 60)))
    as [Hstored _]; [vm_compute; reflexivity..|].
  apply Hstored; vm_compute; reflexivity.
Defined.

(** C5 fails for a value that [Number] cannot convert: the body
    [{ temperature: { toString: 1 }, humidity: 60 }] holds both fields
    and the storage is up, yet the conversion throws, the request is
    answered with status 500, not 201, and nothing is stored. *)
Lemma post_sensor_coercion_throws :
  let body : gmap string js_value :=
    {[ "temperature" := JObject [("toString"%string,
                                  JNumber (integer_to_double 1))];
       "humidity" := JNumber (integer_to_double 60) ]} in
  let db := {| records := []; sensors := [] |} in
  is_Some (body !! "temperature") ∧ is_Some (body !! "humidity")
  ∧ insertOne_answers always_up = true
  ∧ post_sensor always_up 1700000000000 body db
    = (db, Json 500 "Internal Server Error")
  ∧ (post_sensor always_up 1700000000000 body db).2 ≠ created.
Proof.
  vm_compute. split; [eauto|]. split; [eauto|]. split; [done|].
  split; [done|discriminate].
Qed.

(** Nor is the answer 201 when the storage does not accept the insert of
    a well-formed reading. *)
Example post_sensor_insert_failure :
  let link := {| aggregate_answers := true; find_answers := true;
                 insertOne_answers := false |} in
  let body : gmap string js_value :=
    {[ "temperature" := JNumber (integer_to_double 25);
       "humidity" := JNumber (integer_to_double 60) ]} in
  (post_sensor link 1700000000000 body {| records := []; sensors := [] |}).2
  = Json 500 "Internal Server Error".
Proof. vm_compute. reflexivity. Qed.

(** C10: the handler reads the body through the keys [temperature] and
    [humidity] only.  Two bodies that agree on these two keys lead to the
    same stored collections and the same answer, whatever else they
    hold; and an accepted request stores a reading made of the coerced
    temperature, the coerced humidity and the server clock. *)
Theorem post_sensor_ignores_other_fields link now
    (body body' : gmap string js_value) db :
  body !! "temperature" = body' !! "temperature" →
  body !! "humidity" = body' !! "humidity" →
  post_sensor link now body db = post_sensor link now body' db
  ∧ (∀ db' status message,
       post_sensor link now body' db = (db', Json status message) →
       status = 201 →
       ∃ temperature humidity t h,
         body !! "temperature" = Some temperature
         ∧ body !! "humidity" = Some humidity
         ∧ Number temperature = Some t
         ∧ Number humidity = Some h
         ∧ records db' = records db
         ∧ sensors db' = sensors db ++ [SensorReading.mk t h now]).
Proof.
  intros Ht Hh. split.
  - unfold post_sensor. rewrite Ht, Hh. reflexivity.
  - intros db' status message Hpost ->.
    unfold post_sensor, newSensorRecord in Hpost.
    rewrite <- Ht, <- Hh in Hpost.
    destruct (body !! "temperature") as [temperature|]; [|discriminate].
    destruct (body !! "humidity") as [humidity|]; [|discriminate].
    destruct (Number temperature) as [t|] eqn:Hnt; [|discriminate].
    destruct (Number humidity) as [h|] eqn:Hnh; [|discriminate].
    simpl in Hpost.
    destruct (insertOne_answers link); [|discriminate].
    inversion Hpost; subst. eexists _, _, _, _. repeat split; done.
Qed.

Lemma post_sensor_ignores_other_fields_witness :
  let body : gmap string js_value :=
    {[ "temperature" := JNumber (integer_to_double 25);
       "humidity" := JNumber (integer_to_double 60) ]} in
  let body' : gmap string js_value :=
    <["device" := JString "esp32"]> (<["timestamp" := JString "1999"]> body) in
  post_sensor always_up 1700000000000 body {| records := []; sensors := [] |}
  = post_sensor always_up 1700000000000 body'
      {| records := []; sensors := [] |}.
Proof.
  intros body body'.
  apply (post_sensor_ignores_other_fields always_up 1700000000000 body body'
           {| records := []; sensors := [] |});
    vm_compute; reflexivity.
Defined.

(** ** Properties of the start-up sequence *)

(** C8: when [MONGO_URI] is unset or empty, or does not start with
    [mongodb], or the connection cannot be established, the process
    exits with code 1 and never listens; it listens only with a
    connection string that passed the test and a connection that was
    established. *)
Theorem main_exits_without_storage (connects listens : string → bool)
    (PORT MONGO_URI : option string) :
  (MONGO_URI = None
   ∨ ∃ uri, MONGO_URI = Some uri
            ∧ (uri = ""%string ∨ startsWith uri "mongodb" = false
               ∨ connects uri = false)) →
  main connects listens PORT MONGO_URI = Exited 1
  ∧ ∀ port, main connects listens PORT MONGO_URI ≠ Listening port.
Proof.
  intros Hbad.
  assert (main connects listens PORT MONGO_URI = Exited 1) as ->; [|done].
  unfold main. destruct Hbad as [->|(uri & -> & Huri)]; [done|].
  destruct Huri as [->|[Hscheme|Hconn]]; [done| |].
  - rewrite Hscheme. by rewrite orb_true_r.
  - rewrite Hconn. by destruct (_ || _).
Qed.

Lemma main_exits_without_storage_witness :
  main (λ _, true) (λ _, true) (Some "8080"%string)
    (Some "postgres://db/weather"%string)
  = Exited 1.
Proof.
  apply (main_exits_without_storage (λ _, true) (λ _, true)
           (Some "8080"%string) (Some "postgres://db/weather"%string)).
  right. exists "postgres://db/weather"%string. split; [reflexivity|].
  right. left. vm_compute. reflexivity.
Defined.

Lemma main_listens connects listens PORT uri :
  uri ≠ ""%string → startsWith uri "mongodb" = true → connects uri = true →
  (∀ port, listens port = true) →
  ∃ port, main connects listens PORT (Some uri) = Listening port.
Proof.
  intros Hne Hscheme Hconn Hlistens. unfold main. rewrite Hscheme, Hconn.
  destruct (String.eqb_spec uri ""); [done|]. simpl.
  rewrite Hlistens. eauto.
Qed.

(** With a driver that connects only to connection strings of the
    schemes [mongodb://] and [mongodb+srv://], any other string ends in
    an exit, whether or not it passes the prefix test. *)
Lemma main_exits_on_other_scheme connects listens PORT uri :
  (∀ u, connects u = true →
        startsWith u "mongodb://" = true
        ∨ startsWith u "mongodb+srv://" = true) →
  startsWith uri "mongodb://" = false →
  startsWith uri "mongodb+srv://" = false →
  main connects listens PORT (Some uri) = Exited 1.
Proof.
  intros Hdriver H1 H2. unfold main.
  destruct (_ || _); [done|].
  destruct (connects uri) eqn:Hconn; [|done].
  destruct (Hdriver uri Hconn); congruence.
Qed.

(** ** Properties of the dashboard handler *)

Section Dashboard.

Context (sort_by : ∀ A : Type, (A → A → bool) → list A → list A).
Context (regex : string → string → option (string → bool)).
Context (LocalTZA : Z → bool → Z).

Lemma format_province_Some p v :
  format_province LocalTZA p = Some v →
  document v = p
  ∧ formatInTimeZone LocalTZA (WeatherRecord.timestamp p)
    = Some (formattedTimestamp v).
Proof.
  unfold format_province. destruct (formatInTimeZone _ _); [|done].
  simpl. by intros [= <-].
Qed.

Lemma format_sensor_Some s v :
  format_sensor LocalTZA s = Some v →
  document v = s
  ∧ formatInTimeZone LocalTZA (SensorReading.timestamp s)
    = Some (formattedTimestamp v).
Proof.
  unfold format_sensor. destruct (formatInTimeZone _ _); [|done].
  simpl. by intros [= <-].
Qed.

Lemma mapM_format_province_Some ps vs :
  mapM (format_province LocalTZA) ps = Some vs →
  document <$> vs = ps
  ∧ Forall (λ v, formatInTimeZone LocalTZA
                   (WeatherRecord.timestamp (document v))
                 = Some (formattedTimestamp v)) vs.
Proof.
  intros H%mapM_Some_1. induction H as [|p v ps vs Hpv _ [IH1 IH2]]; [done|].
  apply format_province_Some in Hpv as [<- Hfmt].
  split; [by rewrite fmap_cons, IH1|]. by constructor.
Qed.

Lemma mapM_format_sensor_Some ss vs :
  mapM (format_sensor LocalTZA) ss = Some vs →
  document <$> vs = ss
  ∧ Forall (λ v, formatInTimeZone LocalTZA
                   (SensorReading.timestamp (document v))
                 = Some (formattedTimestamp v)) vs.
Proof.
  intros H%mapM_Some_1. induction H as [|p v ps vs Hpv _ [IH1 IH2]]; [done|].
  apply format_sensor_Some in Hpv as [<- Hfmt].
  split; [by rewrite fmap_cons, IH1|]. by constructor.
Qed.

Lemma format_region_Some r v :
  format_region LocalTZA r = Some v →
  _id v = _id r
  ∧ document <$> provinces v = provinces r
  ∧ Forall (λ f, formatInTimeZone LocalTZA
                   (WeatherRecord.timestamp (document f))
                 = Some (formattedTimestamp f)) (provinces v).
Proof.
  unfold format_region.
  destruct (mapM (format_province LocalTZA) (provinces r)) as [vs|] eqn:Hvs;
    [|done].
  simpl. intros [= <-]. simpl. split; [done|].
  by apply mapM_format_province_Some.
Qed.

Lemma format_region_None r p :
  p ∈ provinces r →
  formatInTimeZone LocalTZA (WeatherRecord.timestamp p) = None →
  format_region LocalTZA r = None.
Proof.
  intros Hin Hfmt. unfold format_region.
  assert (mapM (format_province LocalTZA) (provinces r) = None) as ->; [|done].
  apply mapM_None_2, Exists_exists. exists p. split; [done|].
  unfold format_province. by rewrite Hfmt.
Qed.

(** C9: the dashboard handler leaves both collections as they were.  If
    the aggregation throws, or a timestamp of a province or of a sensor
    reading cannot be formatted, or the sensor query throws, the answer
    is status 500 with the Thai message of [server_error_text]; and
    whenever the template is rendered, it is [index] with the complete
    result of both queries, every timestamp formatted. *)
Theorem get_root_reads_and_fails_whole link q db :
  let stage := matchStage (default ""%string q) in
  let regs := aggregate sort_by regex link stage (records db) in
  let readings := find_recent sort_by link (sensors db) in
  (get_root sort_by regex LocalTZA link q db).1 = db
  ∧ ((regs = None
      ∨ (∃ rs r p, regs = Some rs ∧ r ∈ rs ∧ p ∈ provinces r
                   ∧ formatInTimeZone LocalTZA (WeatherRecord.timestamp p)
                     = None)
      ∨ readings = None
      ∨ (∃ ss s, readings = Some ss ∧ s ∈ ss
                 ∧ formatInTimeZone LocalTZA (SensorReading.timestamp s)
                   = None)) →
     (get_root sort_by regex LocalTZA link q db).2 = Sent 500 server_error_text)
  ∧ (∀ view locals,
       (get_root sort_by regex LocalTZA link q db).2 = Rendered view locals →
       view = "index"%string
       ∧ ∃ rs ss, regs = Some rs ∧ readings = Some ss
                  ∧ complete_dashboard LocalTZA rs ss locals).
Proof.
  intros stage regs readings. unfold get_root, dashboard_locals.
  fold stage. fold regs. fold readings.
  split; [by destruct (_ ≫= _)|]. split.
  - intros Hfail.
    destruct regs as [rs|] eqn:Hregs; simpl; [|done].
    destruct (mapM (format_region LocalTZA) rs) as [vs|] eqn:Hvs; simpl.
    2: done.
    destruct Hfail as [?|[(rs' & r & p & [= <-] & Hr & Hp & Hfmt)|Hfail]].
    { done. }
    { assert (mapM (format_region LocalTZA) rs = None) as Hnone.
      { apply mapM_None_2, Exists_exists. exists r. split; [done|].
        by eapply format_region_None. }
      congruence. }
    destruct readings as [ss|] eqn:Hreadings; simpl; [|done].
    destruct Hfail as [?|(ss' & s & [= <-] & Hs & Hfmt)]; [done|].
    assert (mapM (format_sensor LocalTZA) ss = None) as ->; [|done].
    apply mapM_None_2, Exists_exists. exists s. split; [done|].
    unfold format_sensor. by rewrite Hfmt.
  - intros view locals.
    destruct regs as [rs|] eqn:Hregs; simpl; [|done].
    destruct (mapM (format_region LocalTZA) rs) as [vs|] eqn:Hvs; simpl;
      [|done].
    destruct readings as [ss|] eqn:Hreadings; simpl; [|done].
    destruct (mapM (format_sensor LocalTZA) ss) as [fs|] eqn:Hfs; simpl;
      [|done].
    intros [= <- <-]. split; [done|]. exists rs, ss.
    split; [done|]. split; [done|]. unfold complete_dashboard. simpl.
    split; [|by apply mapM_format_sensor_Some].
    apply mapM_Some_1 in Hvs.
    eapply Forall2_impl; [exact Hvs|]. intros r v. apply format_region_Some.
Qed.

End Dashboard.

(** ** Orders used by the sort stages *)

Lemma ascii_compare_N a b :
  Ascii.compare a b = (N_of_ascii a ?= N_of_ascii b)%N.
Proof. reflexivity. Qed.

Lemma string_compare_trans s1 : ∀ s2 s3 c,
  String.compare s1 s2 = c → String.compare s2 s3 = c → c ≠ Eq →
  String.compare s1 s3 = c.
Proof.
  induction s1 as [|a1 s1 IH]; intros [|a2 s2] [|a3 s3] c; simpl;
    try congruence.
  rewrite !ascii_compare_N.
  destruct (N.compare_spec (N_of_ascii a1) (N_of_ascii a2)) as [E12|L12|G12];
    destruct (N.compare_spec (N_of_ascii a2) (N_of_ascii a3)) as [E23|L23|G23];
    intros H1 H2 Hc; subst; try congruence.
  - rewrite E12, E23, N.compare_refl. by eapply IH.
  - rewrite E12. by apply N.compare_lt_iff in L23 as ->.
  - rewrite E12. by apply N.compare_gt_iff in G23 as ->.
  - rewrite <- E23. by apply N.compare_lt_iff in L12 as ->.
  - assert (N_of_ascii a1 < N_of_ascii a3)%N as ->%N.compare_lt_iff by lia.
    done.
  - rewrite <- E23. by apply N.compare_gt_iff in G12 as ->.
  - assert (N_of_ascii a3 < N_of_ascii a1)%N as ->%N.compare_gt_iff by lia.
    done.
Qed.

Lemma string_leb_trans s1 s2 s3 :
  String.leb s1 s2 = true → String.leb s2 s3 = true → String.leb s1 s3 = true.
Proof.
  unfold String.leb.
  destruct (String.compare s1 s2) eqn:H12; [|..|done].
  - apply String.compare_eq_iff in H12 as ->. done.
  - destruct (String.compare s2 s3) eqn:H23; [|..|done].
    + apply String.compare_eq_iff in H23 as <-. by rewrite H12.
    + by rewrite (string_compare_trans s1 s2 s3 Lt).
Qed.

Lemma string_compare_refl s : String.compare s s = Eq.
Proof.
  induction s as [|a s IH]; simpl; [done|].
  by rewrite ascii_compare_N, N.compare_refl.
Qed.

Lemma string_leb_refl s : String.leb s s = true.
Proof. unfold String.leb. by rewrite string_compare_refl. Qed.

Lemma timestamp_desc_total a b :
  timestamp_desc a b = true ∨ timestamp_desc b a = true.
Proof. unfold timestamp_desc. lia. Qed.

Lemma timestamp_desc_trans a b c :
  timestamp_desc a b = true → timestamp_desc b c = true →
  timestamp_desc a c = true.
Proof. unfold timestamp_desc. lia. Qed.

Lemma sensor_timestamp_desc_total a b :
  sensor_timestamp_desc a b = true ∨ sensor_timestamp_desc b a = true.
Proof. unfold sensor_timestamp_desc. lia. Qed.

Lemma sensor_timestamp_desc_trans a b c :
  sensor_timestamp_desc a b = true → sensor_timestamp_desc b c = true →
  sensor_timestamp_desc a c = true.
Proof. unfold sensor_timestamp_desc. lia. Qed.

Lemma StronglySorted_filter {A} (R : relation A) (P : A → Prop)
    `{∀ x, Decision (P x)} l :
  StronglySorted R l → StronglySorted R (filter P l).
Proof.
  induction 1 as [|x l Hl IH Hx]; [constructor|].
  rewrite filter_cons. destruct (decide (P x)); [|done].
  constructor; [done|].
  apply Forall_forall. intros y [_ Hy]%list_elem_of_filter.
  by eapply Forall_forall in Hx.
Qed.

Lemma StronglySorted_weaken {A} (R1 R2 : relation A) l :
  (∀ x y, R1 x y → R2 x y) → StronglySorted R1 l → StronglySorted R2 l.
Proof.
  intros Himpl. induction 1 as [|x l Hl IH Hx]; constructor; [done|].
  eapply Forall_impl; [exact Hx|]. apply Himpl.
Qed.

Lemma head_filter_sorted {A} (R : relation A) (P : A → Prop)
    `{∀ x, Decision (P x)} l x :
  StronglySorted R l → head (filter P l) = Some x →
  x ∈ l ∧ P x ∧ ∀ y, y ∈ l → P y → y = x ∨ R x y.
Proof.
  intros Hsorted%(StronglySorted_filter R P) Hhead.
  destruct (filter P l) as [|x' k] eqn:Hk; [done|].
  injection Hhead as ->.
  assert (x ∈ filter P l) as [? ?]%list_elem_of_filter
    by (rewrite Hk; left).
  split; [done|]. split; [done|]. intros y Hy HPy.
  assert (y ∈ filter P l) as Hin by by apply list_elem_of_filter.
  rewrite Hk in Hin.
  apply elem_of_cons in Hin as [->|Hin]; [by left|]. right.
  apply StronglySorted_inv in Hsorted as [_ Hall].
  by eapply Forall_forall in Hall.
Qed.

(** ** The sorting function and the engine of the examples *)

Lemma insert_by_Permutation {A} (le : A → A → bool) x l :
  insert_by le x l ≡ₚ x :: l.
Proof.
  induction l as [|y l IH]; simpl; [done|].
  destruct (le x y); [done|]. by rewrite IH, Permutation_swap.
Qed.

Lemma insertion_sort_Permutation A (le : A → A → bool) l :
  insertion_sort A le l ≡ₚ l.
Proof.
  induction l as [|x l IH]; simpl; [done|].
  by rewrite insert_by_Permutation, IH.
Qed.

Lemma insert_by_sorted {A} (le : A → A → bool) x l :
  (∀ x y, le x y = true ∨ le y x = true) →
  (∀ x y z, le x y = true → le y z = true → le x z = true) →
  StronglySorted (λ x y, le x y = true) l →
  StronglySorted (λ x y, le x y = true) (insert_by le x l).
Proof.
  intros Htotal Htrans. induction 1 as [|y l Hl IH Hy]; simpl.
  { repeat constructor. }
  destruct (le x y) eqn:Hxy.
  - constructor; [by constructor|]. constructor; [done|].
    eapply Forall_impl; [exact Hy|]. intros z Hyz. by eapply Htrans.
  - constructor; [done|].
    rewrite insert_by_Permutation. constructor; [|done].
    destruct (Htotal x y); congruence.
Qed.

Lemma insertion_sort_sorted A (le : A → A → bool) l :
  (∀ x y, le x y = true ∨ le y x = true) →
  (∀ x y z, le x y = true → le y z = true → le x z = true) →
  StronglySorted (λ x y, le x y = true) (insertion_sort A le l).
Proof.
  intros Htotal Htrans. induction l as [|x l IH]; simpl; [constructor|].
  by apply insert_by_sorted.
Qed.

(** ** The two [$group] stages *)

Lemma group_first_foldl docs : ∀ (groups : gmap string WeatherRecord.t) c,
  foldl (λ groups d,
           match groups !! WeatherRecord.city d with
           | Some _ => groups
           | None => <[WeatherRecord.city d := d]> groups
           end) groups docs !! c
  = match groups !! c with
    | Some d => Some d
    | None => head (filter (λ d, WeatherRecord.city d = c) docs)
    end.
Proof.
  induction docs as [|d docs IH]; intros groups c; simpl.
  { by destruct (groups !! c). }
  rewrite IH, filter_cons.
  destruct (decide (WeatherRecord.city d = c)) as [<-|Hne].
  - destruct (groups !! WeatherRecord.city d) as [d0|] eqn:Hd0.
    + by rewrite Hd0.
    + by rewrite lookup_insert_eq.
  - destruct (groups !! WeatherRecord.city d); [done|].
    by rewrite lookup_insert_ne.
Qed.

Lemma group_first_lookup docs c :
  group_first docs !! c = head (filter (λ d, WeatherRecord.city d = c) docs).
Proof. unfold group_first. by rewrite group_first_foldl, lookup_empty. Qed.

Lemma group_first_city docs c d :
  group_first docs !! c = Some d → WeatherRecord.city d = c ∧ d ∈ docs.
Proof.
  rewrite group_first_lookup. intros Hhead.
  destruct (filter _ docs) as [|d' k] eqn:Hk; [done|].
  injection Hhead as ->.
  assert (d ∈ filter (λ d, WeatherRecord.city d = c) docs) as Hin
    by (rewrite Hk; left).
  by apply list_elem_of_filter in Hin.
Qed.

(** The cities of the documents that the first [$group] emits are its
    group keys, each once. *)
Lemma group_first_cities docs :
  WeatherRecord.city <$> (map_to_list (group_first docs)).*2
  = (map_to_list (group_first docs)).*1.
Proof.
  assert (Forall (λ kv, WeatherRecord.city kv.2 = kv.1)
            (map_to_list (group_first docs))) as Hall.
  { apply Forall_forall. intros [c d] Hin%elem_of_map_to_list.
    by apply group_first_city in Hin as [? _]. }
  induction Hall as [|[c d] l Hcd _ IH]; [done|].
  rewrite !fmap_cons. simpl in Hcd. simpl. by f_equal.
Qed.

Lemma group_push_foldl docs : ∀ (groups : gmap string (list WeatherRecord.t)) g,
  foldl (λ groups d,
           <[WeatherRecord.region d :=
               default [] (groups !! WeatherRecord.region d) ++ [d]]> groups)
        groups docs !! g
  = match filter (λ d, WeatherRecord.region d = g) docs with
    | [] => groups !! g
    | k => Some (default [] (groups !! g) ++ k)
    end.
Proof.
  induction docs as [|d docs IH]; intros groups g; simpl; [done|].
  rewrite IH, filter_cons.
  destruct (decide (WeatherRecord.region d = g)) as [<-|Hne].
  - rewrite lookup_insert_eq. simpl.
    destruct (filter _ docs); [done|]. by rewrite <- app_assoc.
  - by rewrite lookup_insert_ne.
Qed.

Lemma group_push_lookup docs g :
  group_push docs !! g
  = match filter (λ d, WeatherRecord.region d = g) docs with
    | [] => None
    | k => Some k
    end.
Proof.
  unfold group_push. rewrite group_push_foldl, lookup_empty.
  by destruct (filter _ docs).
Qed.

Lemma map_to_list_insert_app (groups : gmap string (list WeatherRecord.t))
    g d :
  mjoin (map_to_list (<[g := default [] (groups !! g) ++ [d]]> groups)).*2
  ≡ₚ mjoin (map_to_list groups).*2 ++ [d].
Proof.
  destruct (groups !! g) as [old|] eqn:Hg; simpl.
  - rewrite <- (insert_delete_eq groups).
    rewrite map_to_list_insert by apply lookup_delete_eq.
    rewrite <- (map_to_list_delete groups g old) by done.
    simpl. rewrite <- !app_assoc. f_equiv. apply Permutation_app_comm.
  - rewrite map_to_list_insert by done. simpl.
    apply Permutation_cons_append.
Qed.

Lemma group_push_foldl_values docs :
  ∀ groups : gmap string (list WeatherRecord.t),
  mjoin (map_to_list
           (foldl (λ groups d,
                     <[WeatherRecord.region d :=
                         default [] (groups !! WeatherRecord.region d) ++ [d]]>
                       groups)
                  groups docs)).*2
  ≡ₚ mjoin (map_to_list groups).*2 ++ docs.
Proof.
  induction docs as [|d docs IH]; intros groups; simpl.
  { by rewrite app_nil_r. }
  rewrite IH, map_to_list_insert_app, <- app_assoc. done.
Qed.

(** The second [$group] hands out every document it received, once. *)
Lemma group_push_values docs :
  mjoin (map_to_list (group_push docs)).*2 ≡ₚ docs.
Proof.
  unfold group_push. rewrite group_push_foldl_values, map_to_list_empty. done.
Qed.

Lemma filter_none {A} (P : A → Prop) `{∀ x, Decision (P x)} l :
  (∀ x, x ∈ l → ¬ P x) → filter P l = [].
Proof.
  induction l as [|x l IH]; intros Hall; [done|].
  rewrite filter_cons_False by (apply Hall; left).
  apply IH. intros y Hy. apply Hall. by right.
Qed.

Lemma filter_key_singleton {A B} `{EqDecision B} (f : A → B) l d :
  NoDup (f <$> l) → d ∈ l → filter (λ x, f x = f d) l = [d].
Proof.
  induction l as [|x l IH]; intros Hnd Hin; [by apply elem_of_nil in Hin|].
  rewrite fmap_cons in Hnd. apply NoDup_cons in Hnd as [Hx Hnd].
  rewrite filter_cons. apply elem_of_cons in Hin as [<-|Hin].
  - rewrite decide_True by done. f_equal.
    apply filter_none. intros y Hy Heq.
    apply Hx. rewrite <- Heq. by apply list_elem_of_fmap_2.
  - destruct (decide (f x = f d)) as [Heq|]; [|by apply IH].
    exfalso. apply Hx. rewrite Heq. by apply list_elem_of_fmap_2.
Qed.

Lemma NoDup_fmap_filter {A B} (f : A → B) (P : A → Prop)
    `{∀ x, Decision (P x)} l :
  NoDup (f <$> l) → NoDup (f <$> filter P l).
Proof.
  induction l as [|x l IH]; [done|].
  rewrite fmap_cons, filter_cons. intros [Hx Hnd]%NoDup_cons.
  destruct (decide (P x)); [|by apply IH].
  rewrite fmap_cons. apply NoDup_cons. split; [|by apply IH].
  intros (y & Hy & [_ Hin]%list_elem_of_filter)%list_elem_of_fmap.
  apply Hx. rewrite Hy. by apply list_elem_of_fmap_2.
Qed.

Lemma string_ltb_leb s1 s2 :
  String.leb s1 s2 = true → s1 ≠ s2 → String.ltb s1 s2 = true.
Proof.
  unfold String.leb, String.ltb.
  destruct (String.compare s1 s2) eqn:Hc; [|done..].
  by apply String.compare_eq_iff in Hc.
Qed.

Lemma StronglySorted_strict {A} (key : A → string) l :
  StronglySorted (λ a b, String.leb (key a) (key b) = true) l →
  NoDup (key <$> l) →
  StronglySorted (λ a b, String.ltb (key a) (key b) = true) l.
Proof.
  induction 1 as [|x l Hl IH Hx]; [constructor|].
  rewrite fmap_cons. intros [Hnotin Hnd]%NoDup_cons.
  constructor; [by apply IH|].
  apply Forall_forall. intros y Hy. apply string_ltb_leb.
  - by eapply Forall_forall in Hx.
  - intros Heq. apply Hnotin. rewrite Heq. by apply list_elem_of_fmap_2.
Qed.

Section Queries.

Context (sort_by : ∀ A : Type, (A → A → bool) → list A → list A).
Context (regex : string → string → option (string → bool)).

(** What the storage guarantees of a sort: the same documents, in an
    order that agrees with the comparison. *)
Hypothesis sort_by_Permutation :
  ∀ A (le : A → A → bool) l, sort_by A le l ≡ₚ l.
Hypothesis sort_by_sorted :
  ∀ A (le : A → A → bool) l,
    (∀ x y, le x y = true ∨ le y x = true) →
    (∀ x y z, le x y = true → le y z = true → le x z = true) →
    StronglySorted (λ x y, le x y = true) (sort_by A le l).

Lemma aggregate_Some link stage docs regs :
  aggregate sort_by regex link stage docs = Some regs →
  ∃ matched,
    run_match regex stage docs = Some matched
    ∧ let sorted := sort_by _ timestamp_desc matched in
      let latest := (map_to_list (group_first sorted)).*2 in
      let by_city := sort_by _ city_asc latest in
      regs = sort_by _ id_asc
               ((λ g, {| _id := g.1; provinces := g.2 |})
                  <$> map_to_list (group_push by_city)).
Proof.
  unfold aggregate. destruct (aggregate_answers link); [|done].
  destruct (run_match regex stage docs) as [matched|]; [|done].
  simpl. intros [= <-]. by exists matched.
Qed.

Lemma city_asc_total a b : city_asc a b = true ∨ city_asc b a = true.
Proof. apply String.leb_total. Qed.

Lemma city_asc_trans a b c :
  city_asc a b = true → city_asc b c = true → city_asc a c = true.
Proof. apply string_leb_trans. Qed.

Lemma id_asc_total {A} (a b : RegionView A) :
  id_asc a b = true ∨ id_asc b a = true.
Proof. apply String.leb_total. Qed.

Lemma id_asc_trans {A} (a b c : RegionView A) :
  id_asc a b = true → id_asc b c = true → id_asc a c = true.
Proof. apply string_leb_trans. Qed.

Lemma regions_values (groups : gmap string (list WeatherRecord.t)) :
  provinces <$> ((λ g, {| _id := g.1; provinces := g.2 |})
                   <$> map_to_list groups)
  = (map_to_list groups).*2.
Proof. rewrite <- list_fmap_compose. by apply list_fmap_ext. Qed.

Lemma regions_keys (groups : gmap string (list WeatherRecord.t)) :
  _id <$> ((λ g, {| _id := g.1; provinces := g.2 |})
             <$> map_to_list groups)
  = (map_to_list groups).*1.
Proof. rewrite <- list_fmap_compose. by apply list_fmap_ext. Qed.

(** The provinces of all regions are the documents that the first
    [$group] emitted. *)
Lemma aggregate_provinces link stage docs regs :
  aggregate sort_by regex link stage docs = Some regs →
  ∃ matched,
    run_match regex stage docs = Some matched
    ∧ all_provinces regs
      ≡ₚ (map_to_list
            (group_first (sort_by _ timestamp_desc matched))).*2.
Proof.
  intros (matched & Hmatch & ->)%aggregate_Some. exists matched.
  split; [done|]. unfold all_provinces.
  rewrite sort_by_Permutation, regions_values, group_push_values.
  apply sort_by_Permutation.
Qed.

Lemma run_match_elem_of stage docs matched d :
  run_match regex stage docs = Some matched →
  d ∈ matched
  ↔ d ∈ docs
    ∧ match stage with
      | MatchAll => True
      | MatchCityRegex pattern options =>
          ∃ test, regex pattern options = Some test
                  ∧ test (WeatherRecord.city d) = true
      end.
Proof.
  destruct stage as [|pattern options]; simpl.
  { intros [= <-]. split; [by intros ?|by intros [? _]]. }
  destruct (regex pattern options) as [test|]; [|done]. simpl.
  intros [= <-]. rewrite list_elem_of_filter. split.
  - intros [Htest Hd]. split; [done|]. by exists test.
  - by intros [Hd (test' & [= <-] & Htest)].
Qed.

(** C1: for every city with a record in [records] (and, when a search
    string is given, accepted by the filter), the regions of the
    aggregation result hold exactly one record of that city in their
    provinces, a record of [records] whose timestamp is the greatest
    among the records of the city. *)
Theorem aggregate_latest_per_city link q docs regs c :
  aggregate sort_by regex link (matchStage q) docs = Some regs →
  (∃ d, d ∈ docs ∧ WeatherRecord.city d = c) →
  (q ≠ ""%string → ∃ test, regex q "i" = Some test ∧ test c = true) →
  ∃ d, filter (λ p, WeatherRecord.city p = c) (all_provinces regs) = [d]
       ∧ d ∈ docs ∧ WeatherRecord.city d = c
       ∧ ∀ d', d' ∈ docs → WeatherRecord.city d' = c →
               WeatherRecord.timestamp d' ≤ WeatherRecord.timestamp d.
Proof.
  intros Hagg (d0 & Hd0 & Hc0) Hfilter.
  destruct (aggregate_provinces _ _ _ _ Hagg) as (matched & Hmatch & Hperm).
  set (sorted := sort_by _ timestamp_desc matched) in *.
  assert (∀ d, WeatherRecord.city d = c → d ∈ docs → d ∈ sorted) as Hkeep.
  { intros d Hcity Hd. unfold sorted. rewrite sort_by_Permutation.
    apply (run_match_elem_of _ _ _ _ Hmatch). split; [done|].
    unfold matchStage in *. destruct (String.eqb_spec q ""); [done|].
    rewrite Hcity. eauto. }
  assert (∀ d, d ∈ sorted → d ∈ docs) as Hback.
  { intros d Hd. unfold sorted in Hd. rewrite sort_by_Permutation in Hd.
    by apply (run_match_elem_of _ _ _ _ Hmatch) in Hd as [? _]. }
  destruct (head (filter (λ d, WeatherRecord.city d = c) sorted))
    as [d|] eqn:Hhead.
  2:{ apply head_None in Hhead.
      assert (d0 ∈ filter (λ d, WeatherRecord.city d = c) sorted) as Hin
        by (apply list_elem_of_filter; auto).
      rewrite Hhead in Hin. by apply elem_of_nil in Hin. }
  pose proof (head_filter_sorted _ _ _ _
                (sort_by_sorted _ _ matched timestamp_desc_total
                   timestamp_desc_trans) Hhead) as (Hd & Hcity & Hmax).
  exists d. split; [|split; [by apply Hback|split; [done|]]].
  - apply Permutation_singleton_r. rewrite Hperm, <- Hcity.
    apply Permutation_singleton_r, filter_key_singleton.
    + rewrite group_first_cities. apply NoDup_fst_map_to_list.
    + apply list_elem_of_fmap. exists (c, d). split; [done|].
      apply elem_of_map_to_list. by rewrite group_first_lookup.
  - intros d' Hd' Hc'. destruct (Hmax d' (Hkeep _ Hc' Hd') Hc') as [->|Hle].
    + lia.
    + unfold timestamp_desc in Hle. lia.
Qed.

(** Every province of the result is a record of [records] whose city the
    filter accepted. *)
Lemma aggregate_provinces_matched link q docs regs p :
  aggregate sort_by regex link (matchStage q) docs = Some regs →
  p ∈ all_provinces regs →
  p ∈ docs
  ∧ (q ≠ ""%string →
     ∃ test, regex q "i" = Some test ∧ test (WeatherRecord.city p) = true).
Proof.
  intros Hagg Hp.
  destruct (aggregate_provinces _ _ _ _ Hagg) as (matched & Hmatch & Hperm).
  rewrite Hperm in Hp.
  apply list_elem_of_fmap in Hp as ([c d] & -> & Hcd). simpl.
  apply elem_of_map_to_list, group_first_city in Hcd as [_ Hd].
  rewrite sort_by_Permutation in Hd.
  apply (run_match_elem_of _ _ _ _ Hmatch) in Hd as [Hdocs Hstage].
  split; [done|]. intros Hq. unfold matchStage in Hstage.
  by destruct (String.eqb_spec q "").
Qed.

(** C3: the regions of the aggregation result come in strictly
    ascending order of their name, and the provinces of each region in
    strictly ascending order of their city, both in the byte order of
    strings. *)
Theorem aggregate_sorted link stage docs regs :
  aggregate sort_by regex link stage docs = Some regs →
  StronglySorted (λ a b, String.ltb (_id a) (_id b) = true) regs
  ∧ Forall (λ r, StronglySorted
                   (λ a b, String.ltb (WeatherRecord.city a)
                                      (WeatherRecord.city b) = true)
                   (provinces r)) regs.
Proof.
  intros (matched & Hmatch & ->)%aggregate_Some.
  set (latest := (map_to_list
                    (group_first (sort_by _ timestamp_desc matched))).*2).
  set (by_city := sort_by _ city_asc latest).
  set (grouped := (λ g, {| _id := g.1; provinces := g.2 |})
                    <$> map_to_list (group_push by_city)).
  split.
  - apply StronglySorted_strict.
    + apply (sort_by_sorted _ id_asc); [apply id_asc_total|].
      apply id_asc_trans.
    + rewrite sort_by_Permutation. unfold grouped.
      rewrite regions_keys. apply NoDup_fst_map_to_list.
  - apply Forall_forall. intros r Hr.
    rewrite sort_by_Permutation in Hr.
    apply list_elem_of_fmap in Hr as ([g ps] & -> & Hg). simpl.
    apply elem_of_map_to_list in Hg. rewrite group_push_lookup in Hg.
    assert (ps = filter (λ d, WeatherRecord.region d = g) by_city) as ->.
    { destruct (filter _ by_city); congruence. }
    apply StronglySorted_strict.
    + apply StronglySorted_filter.
      apply (sort_by_sorted _ city_asc); [apply city_asc_total|].
      apply city_asc_trans.
    + apply NoDup_fmap_filter. unfold by_city.
      rewrite sort_by_Permutation. unfold latest.
      rewrite group_first_cities. apply NoDup_fst_map_to_list.
Qed.

(** C6: the sensor query returns the readings in descending order of
    timestamp; it returns five of them, or all of them when the
    collection holds fewer; and no reading left out is more recent than
    a reading returned. *)
Theorem find_recent_latest_five link docs result :
  find_recent sort_by link docs = Some result →
  StronglySorted (λ a b, SensorReading.timestamp b
                         ≤ SensorReading.timestamp a) result
  ∧ length result = Nat.min 5 (length docs)
  ∧ (length docs ≤ 5 → result ≡ₚ docs)%nat
  ∧ ∃ rest, result ++ rest ≡ₚ docs
            ∧ ∀ x y, x ∈ result → y ∈ rest →
                     SensorReading.timestamp y ≤ SensorReading.timestamp x.
Proof.
  unfold find_recent. destruct (find_answers link); [|done].
  intros [= <-].
  set (sorted := sort_by _ sensor_timestamp_desc docs).
  assert (sorted ≡ₚ docs) as Hperm by apply sort_by_Permutation.
  assert (StronglySorted (λ a b, SensorReading.timestamp b
                                 ≤ SensorReading.timestamp a) sorted)
    as Hsorted.
  { apply (StronglySorted_weaken
             (λ a b, sensor_timestamp_desc a b = true)).
    - intros a b. unfold sensor_timestamp_desc. lia.
    - apply sort_by_sorted; [apply sensor_timestamp_desc_total|].
      apply sensor_timestamp_desc_trans. }
  rewrite <- (take_drop 5 sorted) in Hsorted.
  split; [by apply StronglySorted_app_1_l in Hsorted|].
  split; [by rewrite length_take, Hperm, Nat.min_comm|].
  split.
  - intros Hlen. rewrite take_ge; [done|]. by rewrite Hperm.
  - exists (drop 5 sorted). split; [by rewrite take_drop|].
    intros x y Hx Hy.
    by eapply (StronglySorted_app_1_elem_of _ _ _ _ _ Hsorted).
Qed.

End Queries.

Lemma DayFromYear_epoch : DayFromYear 1970 = 0.
Proof. reflexivity. Qed.

Lemma DayFromYear_succ y : DayFromYear (y + 1) = DayFromYear y + DaysInYear y.
Proof.
  unfold DayFromYear, DaysInYear.
  repeat match goal with
         | |- context [?a =? ?b] => destruct (Z.eqb_spec a b); simpl
         end;
    Z.div_mod_to_equations; lia.
Qed.

Lemma DaysInYear_cases y : DaysInYear y = 365 ∨ DaysInYear y = 366.
Proof. unfold DaysInYear. repeat case_match; auto. Qed.

Lemma YearFromDay_spec day :
  DayFromYear (YearFromDay day) ≤ day < DayFromYear (YearFromDay day + 1).
Proof.
  unfold YearFromDay.
  set (y := 1970 + 400 * day / 146097).
  assert (DayFromYear (y - 1) ≤ day < DayFromYear (y + 2)) as Hest.
  { unfold DayFromYear, y. Z.div_mod_to_equations. lia. }
  destruct (Z.ltb_spec day (DayFromYear y)).
  - replace (y - 1 + 1) with y by lia. lia.
  - destruct (Z.leb_spec (DayFromYear (y + 1)) day).
    + replace (y + 1 + 1) with (y + 2) by lia. lia.
    + lia.
Qed.

Lemma DayWithinYear_range t :
  0 ≤ DayWithinYear t < DaysInYear (YearFromTime t).
Proof.
  unfold DayWithinYear, YearFromTime.
  pose proof (YearFromDay_spec (Day t)) as H.
  rewrite DayFromYear_succ in H. lia.
Qed.

(** The month and the day of the month are those of the civil date that
    falls on the day of the year. *)
Lemma month_date_spec t :
  let year := YearFromTime t in
  let month := MonthFromTime t + 1 in
  let day := DateFromTime t in
  1 ≤ month ≤ 12
  ∧ 1 ≤ day ≤ days_in_month year month
  ∧ days_before_month year month + (day - 1) = DayWithinYear t.
Proof.
  cbv zeta. pose proof (DayWithinYear_range t) as Hrange.
  unfold DateFromTime, MonthFromTime, InLeapYear in *.
  set (d := DayWithinYear t) in *. set (y := YearFromTime t) in *.
  unfold days_before_month, days_in_month.
  destruct (DaysInYear_cases y) as [Hy|Hy]; rewrite Hy in *; simpl;
    repeat match goal with
           | |- context [?a <? ?b] => destruct (Z.ltb_spec a b); simpl
           end;
    lia.
Qed.

Lemma time_of_day_spec t :
  t = Day t * msPerDay + HourFromTime t * msPerHour
      + MinFromTime t * msPerMinute + SecFromTime t * msPerSecond
      + t mod msPerSecond
  ∧ 0 ≤ HourFromTime t < 24 ∧ 0 ≤ MinFromTime t < 60
  ∧ 0 ≤ SecFromTime t < 60 ∧ 0 ≤ t mod msPerSecond < 1000.
Proof.
  unfold Day, HourFromTime, MinFromTime, SecFromTime, msPerDay, msPerHour,
    msPerMinute, msPerSecond.
  Z.div_mod_to_equations. lia.
Qed.

(** The calendar fields of an instant denote that instant. *)
Lemma civil_time_fields t :
  civil_time (YearFromTime t) (MonthFromTime t + 1) (DateFromTime t)
    (HourFromTime t) (MinFromTime t) (SecFromTime t) (t mod msPerSecond)
  = t.
Proof.
  unfold civil_time.
  destruct (month_date_spec t) as (_ & _ & Hday).
  destruct (time_of_day_spec t) as (Ht & _).
  replace (DayFromYear (YearFromTime t)
           + days_before_month (YearFromTime t) (MonthFromTime t + 1)
           + (DateFromTime t - 1)) with (Day t).
  - lia.
  - unfold DayWithinYear in Hday. lia.
Qed.

Lemma string_app_nil (s : string) : ("" ++ s)%string = s.
Proof. reflexivity. Qed.

Lemma string_app_cons c (s1 s2 : string) :
  (String c s1 ++ s2)%string = String c (s1 ++ s2)%string.
Proof. reflexivity. Qed.

Lemma string_app_nil_r (s : string) : (s ++ "")%string = s.
Proof.
  induction s as [|c s IH]; [done|]. by rewrite string_app_cons, IH.
Qed.

Lemma string_app_assoc (s1 s2 s3 : string) :
  ((s1 ++ s2) ++ s3 = s1 ++ (s2 ++ s3))%string.
Proof.
  induction s1 as [|c s1 IH]; [done|]. by rewrite !string_app_cons, IH.
Qed.

Lemma string_length_app (s1 s2 : string) :
  String.length (s1 ++ s2) = (String.length s1 + String.length s2)%nat.
Proof.
  induction s1 as [|c s1 IH]; [done|].
  rewrite string_app_cons. simpl. by rewrite IH.
Qed.

Lemma digit_char_spec d :
  0 ≤ d ≤ 9 →
  is_digit (digit_char d) = true
  ∧ Z.of_N (N_of_ascii (digit_char d)) - 48 = d
  ∧ (1 ≤ d → digit_char d ≠ "0"%char).
Proof.
  intros Hd.
  assert (d = 0 ∨ d = 1 ∨ d = 2 ∨ d = 3 ∨ d = 4 ∨ d = 5 ∨ d = 6 ∨ d = 7
          ∨ d = 8 ∨ d = 9) as Hcases by lia.
  repeat destruct Hcases as [->|Hcases]; try subst d;
    (split; [reflexivity|split; [reflexivity|intros; try lia; discriminate]]).
Qed.

Lemma toString_aux_S fuel n acc :
  toString_aux (S fuel) n acc
  = if n <? 10 then String (digit_char (n mod 10)) acc
    else toString_aux fuel (n / 10) (String (digit_char (n mod 10)) acc).
Proof. reflexivity. Qed.

Lemma toString_aux_spec fuel : ∀ n acc,
  0 ≤ n < 2 ^ Z.of_nat (S fuel) →
  ∃ s, toString_aux (S fuel) n acc = (s ++ acc)%string ∧ digits_of s n.
Proof.
  induction fuel as [|fuel IH]; intros n acc Hn.
  - assert ((n <? 10) = true) as Hlt by (apply Z.ltb_lt; simpl in Hn; lia).
    simpl. rewrite Hlt. exists (String (digit_char (n mod 10)) "").
    split; [done|].
    destruct (digit_char_spec (n mod 10)) as (Hdig & Hval & Hnz);
      [simpl in Hn; Z.div_mod_to_equations; lia|].
    assert (n mod 10 = n) as Hmod by (apply Z.mod_small; simpl in Hn; lia).
    split; [simpl; lia|]. split; [|split].
    + intros a rest. rewrite string_app_cons, string_app_nil. simpl.
      rewrite Hdig, Hval, Hmod. f_equal. lia.
    + simpl. lia.
    + intros H1. simpl. apply Hnz. lia.
  - rewrite toString_aux_S. destruct (Z.ltb_spec n 10) as [Hlt|Hge].
    + exists (String (digit_char (n mod 10)) ""). split; [done|].
      destruct (digit_char_spec (n mod 10)) as (Hdig & Hval & Hnz);
        [Z.div_mod_to_equations; lia|].
      assert (n mod 10 = n) as Hmod by (apply Z.mod_small; lia).
      split; [simpl; lia|]. split; [|split].
      * intros a rest. rewrite string_app_cons, string_app_nil. simpl.
        rewrite Hdig, Hval, Hmod. f_equal. lia.
      * simpl. lia.
      * intros H1. simpl. apply Hnz. lia.
    + destruct (IH (n / 10) (String (digit_char (n mod 10)) acc))
        as (s & Hs & Hlen & Hvalue & Hlow & Hlead).
      { rewrite (Nat2Z.inj_succ (S fuel)), Z.pow_succ_r in Hn by lia.
        Z.div_mod_to_equations. lia. }
      exists (s ++ String (digit_char (n mod 10)) "")%string.
      split; [by rewrite Hs, string_app_assoc|].
      destruct (digit_char_spec (n mod 10)) as (Hdig & Hval & _);
        [Z.div_mod_to_equations; lia|].
      unfold digits_of. rewrite string_length_app. simpl String.length.
      split; [lia|]. split; [|split].
      * intros a rest.
        rewrite string_app_assoc, Hvalue, string_app_cons, string_app_nil.
        simpl. rewrite Hdig, Hval. f_equal.
        replace (Z.of_nat (String.length s + 1))
          with (Z.succ (Z.of_nat (String.length s))) by lia.
        rewrite Z.pow_succ_r by lia.
        pose proof (Z.div_mod n 10). lia.
      * intros _.
        replace (Z.of_nat (String.length s + 1) - 1)
          with (Z.of_nat (String.length s)) by lia.
        destruct (decide (String.length s = 1%nat)) as [->|Hne].
        { simpl. lia. }
        assert (10 ^ (Z.of_nat (String.length s) - 1) ≤ n / 10) as Hl
          by (apply Hlow; lia).
        replace (Z.of_nat (String.length s))
          with (Z.succ (Z.of_nat (String.length s) - 1)) by lia.
        rewrite Z.pow_succ_r by lia.
        Z.div_mod_to_equations. lia.
      * intros _. destruct s as [|c s]; [simpl in Hlen; lia|].
        rewrite string_app_cons. simpl. apply Hlead.
        Z.div_mod_to_equations. lia.
Qed.

Lemma toString_spec n : 0 ≤ n → digits_of (toString n) n.
Proof.
  intros Hn. unfold toString.
  destruct (toString_aux_spec (Z.to_nat (Z.log2 n)) n "") as (s & -> & Hs).
  - rewrite Nat2Z.inj_succ, Z2Nat.id by apply Z.log2_nonneg.
    destruct (decide (n = 0)) as [->|]; [done|].
    pose proof (Z.log2_spec n). lia.
  - by rewrite string_app_nil_r.
Qed.

Lemma repeat_zero_value k rest :
  decimal_value_from 0 (repeat_char "0" k ++ rest) = decimal_value_from 0 rest.
Proof.
  induction k as [|k IH]; [done|]. simpl repeat_char.
  rewrite string_app_cons. simpl. exact IH.
Qed.

Lemma repeat_char_length c k : String.length (repeat_char c k) = k.
Proof. induction k as [|k IH]; simpl; [done|]. by rewrite IH. Qed.

Lemma decimal_value_nonempty s :
  (1 ≤ String.length s)%nat → decimal_value s = decimal_value_from 0 s.
Proof. destruct s; simpl; [lia|done]. Qed.

(** [addLeadingZeros] prints the decimal digits of a non-negative number,
    at least [targetLength] of them, and exactly that many when the number
    fits; with a target of one digit it prints no leading zero. *)
Lemma addLeadingZeros_spec n targetLength :
  0 ≤ n → (1 ≤ targetLength)%nat →
  decimal_value (addLeadingZeros n targetLength) = Some n
  ∧ (targetLength ≤ String.length (addLeadingZeros n targetLength))%nat
  ∧ (n < 10 ^ Z.of_nat targetLength →
     String.length (addLeadingZeros n targetLength) = targetLength)
  ∧ (targetLength = 1%nat → 1 ≤ n →
     no_leading_zero (addLeadingZeros n targetLength)).
Proof.
  intros Hn Hw. unfold addLeadingZeros, padStart.
  assert ((n <? 0) = false) as -> by lia.
  rewrite string_app_nil, Z.abs_eq by done.
  destruct (toString_spec n Hn) as (Hlen & Hvalue & Hlow & Hlead).
  set (t := toString n) in *.
  assert (String.length (repeat_char "0" (targetLength - String.length t) ++ t)
          = Nat.max targetLength (String.length t)) as Hmax.
  { rewrite string_length_app, repeat_char_length. lia. }
  split; [|split; [|split]].
  - rewrite decimal_value_nonempty by lia.
    rewrite repeat_zero_value.
    by rewrite <- (string_app_nil_r t), Hvalue.
  - lia.
  - intros Hfit. rewrite Hmax.
    destruct (decide (2 ≤ String.length t)%nat) as [H2|]; [|lia].
    specialize (Hlow H2).
    assert (Z.of_nat (String.length t) - 1 < Z.of_nat targetLength); [|lia].
    apply (Z.pow_lt_mono_r_iff 10); lia.
  - intros -> H1.
    replace (1 - String.length t)%nat with 0%nat by lia.
    simpl repeat_char. rewrite string_app_nil. by apply Hlead.
Qed.

Lemma isValid_true t : - max_time ≤ t ≤ max_time → isValid t = true.
Proof. unfold isValid. lia. Qed.

Lemma recent_year wall :
  bangkok_utc7_start + 25200000 ≤ wall → 1920 ≤ YearFromTime wall.
Proof.
  intros Hwall. unfold YearFromTime.
  pose proof (YearFromDay_spec (Day wall)) as [_ Hy].
  assert (-18173 ≤ Day wall) as Hday.
  { unfold Day, msPerDay, bangkok_utc7_start in *.
    Z.div_mod_to_equations. lia. }
  unfold DayFromYear in Hy. Z.div_mod_to_equations. lia.
Qed.

(** ** The time formatter *)

Lemma MakeDay_fields t :
  MakeDay (YearFromTime t) (MonthFromTime t) (DateFromTime t) = Day t.
Proof.
  pose proof (DayWithinYear_range t) as Hrange.
  assert (0 ≤ MonthFromTime t ≤ 11) as Hmonth.
  { unfold MonthFromTime. repeat case_match; lia. }
  unfold MakeDay.
  rewrite (Z.div_small (MonthFromTime t) 12), (Z.mod_small (MonthFromTime t) 12),
    Z.add_0_r by lia.
  unfold DateFromTime, MonthFromTime, InLeapYear, DayWithinYear in *.
  set (y := YearFromTime t) in *.
  destruct (DaysInYear_cases y) as [Hy|Hy]; rewrite Hy in *; simpl;
    repeat match goal with
           | |- context [?a <? ?b] => destruct (Z.ltb_spec a b); simpl
           end;
    lia.
Qed.

Lemma MakeDate_fields t :
  MakeDate (Day t)
    (MakeTime (HourFromTime t) (MinFromTime t) (SecFromTime t)
       (t mod msPerSecond))
  = t.
Proof.
  unfold MakeDate, MakeTime. destruct (time_of_day_spec t) as [Ht _]. lia.
Qed.

Lemma TimeClip_Some t : - max_time ≤ t ≤ max_time → TimeClip t = Some t.
Proof. intros Ht. unfold TimeClip. by rewrite isValid_true. Qed.

Lemma TimeClip_inv t u :
  TimeClip t = Some u → u = t ∧ - max_time ≤ t ≤ max_time.
Proof.
  unfold TimeClip, isValid.
  destruct (Z.leb_spec (- max_time) t); destruct (Z.leb_spec t max_time);
    simpl; intros [= <-]; lia.
Qed.

Lemma timeZoneOffset_cases date :
  timeZoneOffset date = 24124000 ∨ timeZoneOffset date = 25200000.
Proof. unfold timeZoneOffset. destruct (_ <? _); auto. Qed.

(** The formatter prints the seconds of a local time and nothing finer. *)
Lemma format_same_second t t' : t / 1000 = t' / 1000 → format t = format t'.
Proof.
  intros Hsec.
  assert (Day t = Day t') as HD.
  { unfold Day, msPerDay. Z.div_mod_to_equations. lia. }
  assert (HourFromTime t = HourFromTime t') as HH.
  { unfold HourFromTime, msPerHour. Z.div_mod_to_equations. lia. }
  assert (MinFromTime t = MinFromTime t') as HM.
  { unfold MinFromTime, msPerMinute. Z.div_mod_to_equations. lia. }
  assert (SecFromTime t = SecFromTime t') as HS.
  { unfold SecFromTime, msPerSecond. by rewrite Hsec. }
  unfold format, DateFromTime, MonthFromTime, InLeapYear, DayWithinYear,
    YearFromTime.
  by rewrite HD, HH, HM, HS.
Qed.

Section ServerZoneFacts.

Context (LocalTZA : Z → bool → Z).

(** The zoned date, when there is one: the Bangkok wall clock [d] read
    as a local time of the server, through an intermediate date [t] that
    has the day of [d] unless the zone moved it. *)
Lemma toZonedTime_Some date zoned :
  toZonedTime LocalTZA date = Some zoned →
  let d := date + timeZoneOffset date in
  ∃ u,
    - max_time ≤ date ≤ max_time ∧ - max_time ≤ d ≤ max_time
    ∧ TimeClip (UTC LocalTZA (MakeDate (Day d)
                                (TimeWithinDay (LocalTime LocalTZA 0))))
      = Some u
    ∧ TimeClip (UTC LocalTZA
                  (MakeDate (Day (LocalTime LocalTZA u))
                     (MakeTime (HourFromTime d) (MinFromTime d)
                        (SecFromTime d) (d mod msPerSecond))))
      = Some zoned.
Proof.
  unfold toZonedTime, isValid.
  destruct (Z.leb_spec (- max_time) date); [|done].
  destruct (Z.leb_spec date max_time); [|done]. simpl.
  destruct (TimeClip (date + timeZoneOffset date)) as [d|] eqn:Hd; [|done].
  apply TimeClip_inv in Hd as [-> Hd]. simpl.
  unfold setFullYear. rewrite MakeDay_fields.
  destruct (TimeClip _) as [u|] eqn:Hu; [|done]. simpl.
  intros Hzoned. exists u. done.
Qed.

(** Every timestamp that lies at least a week inside the range of dates
    can be formatted, in a server zone whose offset from UTC never
    exceeds a day. *)
Lemma formatInTimeZone_in_range date :
  (∀ t isUTC, - msPerDay ≤ LocalTZA t isUTC ≤ msPerDay) →
  - max_time + 7 * msPerDay ≤ date ≤ max_time - 7 * msPerDay →
  is_Some (formatInTimeZone LocalTZA date).
Proof.
  intros Hzone Hdate. unfold formatInTimeZone.
  assert (is_Some (toZonedTime LocalTZA date)) as [zoned ->]; [|by eexists].
  pose proof (timeZoneOffset_cases date) as Hoff.
  unfold toZonedTime. rewrite isValid_true by (unfold msPerDay in *; lia).
  rewrite TimeClip_Some by (unfold msPerDay, max_time in *; lia). simpl.
  unfold setFullYear. rewrite MakeDay_fields.
  set (d := date + timeZoneOffset date).
  set (local1 := MakeDate (Day d) (TimeWithinDay (LocalTime LocalTZA 0))).
  assert (d - msPerDay < local1 < d + msPerDay) as Hlocal1.
  { unfold local1, MakeDate, Day, TimeWithinDay, msPerDay.
    Z.div_mod_to_equations. lia. }
  pose proof (Hzone local1 false) as Hoff1.
  rewrite TimeClip_Some
    by (unfold UTC, d, msPerDay, max_time in *; lia).
  simpl.
  set (u := UTC LocalTZA local1).
  pose proof (Hzone u true) as Hoff2.
  set (local2 := MakeDate _ _).
  assert (d - 4 * msPerDay < local2 < d + 4 * msPerDay) as Hlocal2.
  { destruct (time_of_day_spec d) as (_ & Hh & Hm & Hs & Hms).
    unfold local2, MakeDate, MakeTime, LocalTime.
    assert (u + LocalTZA u true - msPerDay
            < Day (u + LocalTZA u true) * msPerDay
            ≤ u + LocalTZA u true) as Hday.
    { unfold Day, msPerDay. Z.div_mod_to_equations. lia. }
    unfold u, UTC, msPerDay, msPerHour, msPerMinute, msPerSecond in *. lia. }
  pose proof (Hzone local2 false) as Hoff3.
  rewrite TimeClip_Some
    by (unfold UTC, d, msPerDay, max_time in *; lia).
  by eexists.
Qed.

(** When the server zone skips no local time on the day that the
    Bangkok wall clock shows, the zoned date has that wall clock as its
    local time. *)
Lemma formatInTimeZone_day_without_gap date :
  (∀ w, Day w = Day (date + timeZoneOffset date) →
        LocalTime LocalTZA (UTC LocalTZA w) = w) →
  (∀ t isUTC, - msPerDay ≤ LocalTZA t isUTC ≤ msPerDay) →
  - max_time + 7 * msPerDay ≤ date ≤ max_time - 7 * msPerDay →
  formatInTimeZone LocalTZA date = Some (format (date + timeZoneOffset date)).
Proof.
  intros Hgap Hzone Hdate.
  destruct (formatInTimeZone_in_range date Hzone Hdate) as [text Htext].
  rewrite Htext. f_equal. revert Htext. unfold formatInTimeZone.
  destruct (toZonedTime LocalTZA date) as [zoned|] eqn:Hzoned; [|done].
  simpl. intros [= <-]. f_equal.
  apply toZonedTime_Some in Hzoned as (u & _ & _ & Hu & Hz).
  set (d := date + timeZoneOffset date) in *.
  assert (Day (MakeDate (Day d) (TimeWithinDay (LocalTime LocalTZA 0)))
          = Day d) as Hday.
  { unfold MakeDate, TimeWithinDay, Day, msPerDay.
    Z.div_mod_to_equations. lia. }
  apply TimeClip_inv in Hu as [-> _]. rewrite (Hgap _ Hday) in Hz.
  rewrite Hday, MakeDate_fields in Hz.
  apply TimeClip_inv in Hz as [-> _]. by apply Hgap.
Qed.

(** In particular in a server zone that skips no local time at all. *)
Lemma formatInTimeZone_no_gap date :
  (∀ w, LocalTime LocalTZA (UTC LocalTZA w) = w) →
  (∀ t isUTC, - msPerDay ≤ LocalTZA t isUTC ≤ msPerDay) →
  - max_time + 7 * msPerDay ≤ date ≤ max_time - 7 * msPerDay →
  formatInTimeZone LocalTZA date = Some (format (date + timeZoneOffset date)).
Proof.
  intros Hgap. apply formatInTimeZone_day_without_gap. intros w _. apply Hgap.
Qed.

End ServerZoneFacts.

(** With the server in UTC, every valid date whose Bangkok wall clock is
    a valid date is formatted, and shows that wall clock. *)
Lemma formatInTimeZone_server_in_UTC date :
  formatInTimeZone (fixed_offset 0) date
  = if isValid date && isValid (date + timeZoneOffset date)
    then Some (format (date + timeZoneOffset date))
    else None.
Proof.
  unfold formatInTimeZone, toZonedTime, TimeClip.
  destruct (isValid date); [|done]. simpl.
  destruct (isValid (date + timeZoneOffset date)) eqn:Hvalid; [|done]. simpl.
  set (d := date + timeZoneOffset date) in *.
  assert (- max_time ≤ d ≤ max_time) as Hd by (unfold isValid in Hvalid; lia).
  unfold setFullYear, setHours, LocalTime, UTC, fixed_offset.
  rewrite MakeDay_fields. change (TimeWithinDay (0 + 0)) with 0.
  assert (- max_time ≤ MakeDate (Day d) 0 - 0 ≤ max_time) as Hday.
  { unfold MakeDate, Day, msPerDay, max_time in *.
    Z.div_mod_to_equations. lia. }
  rewrite (TimeClip_Some _ Hday). simpl.
  assert (Day (MakeDate (Day d) 0 - 0 + 0) = Day d) as ->.
  { unfold MakeDate, Day, msPerDay. Z.div_mod_to_equations. lia. }
  rewrite MakeDate_fields, TimeClip_Some by lia. simpl.
  do 2 f_equal. lia.
Qed.




(** The printed hour depends on the zone of the server when that zone
    skips local times.  With the offset of the server moving from -5 to
    -4 hours at 2024-03-10T07:00:00Z, the local times from 02:00 to 03:00
    of that day do not exist, and 2024-03-09T19:30:00Z, which is 02:30 in
    Bangkok, is printed as 03:30; a server in UTC prints 02:30.  On
    another day the same server prints the wall clock of Bangkok. *)
Example formatInTimeZone_server_zone :
  formatInTimeZone (one_transition 1710054000000 (-18000000) (-14400000))
    1710012600000
  = Some "10/3/2024 03:30:00"%string
  ∧ formatInTimeZone (fixed_offset 0) 1710012600000
    = Some "10/3/2024 02:30:00"%string
  ∧ formatInTimeZone (one_transition 1710054000000 (-18000000) (-14400000))
      1709632800000
    = Some "5/3/2024 17:00:00"%string.
Proof. vm_compute. repeat split. Qed.

(** ** The search filter *)

Lemma parse_atoms_plain q :
  plain q = true →
  parse_atoms q = Some (Lit <$> list_ascii_of_string q).
Proof.
  unfold plain. induction q as [|c q IH]; [done|].
  simpl. intros [[Hascii Hmeta]%andb_true_iff Hrest]%andb_true_iff.
  assert (Ascii.eqb c "." = false) as ->.
  { destruct (Ascii.eqb_spec c "."); [subst c; discriminate|done]. }
  apply negb_true_iff in Hmeta. rewrite Hmeta. simpl.
  assert ((128 <=? N_of_ascii c)%N = false) as ->
    by by apply N.leb_gt, N.ltb_lt.
  simpl. by rewrite (IH Hrest).
Qed.

Lemma match_here_literal q s :
  match_here (Lit <$> list_ascii_of_string q) s
  = String.prefix (to_lower q) (to_lower s).
Proof.
  revert s. induction q as [|c q IH]; intros [|d s]; simpl; try done.
  rewrite IH. destruct (Ascii.eqb_spec (lower c) (lower d)) as [->|Hne].
  - by destruct (ascii_dec (lower d) (lower d)).
  - by destruct (ascii_dec (lower c) (lower d)).
Qed.

(** On plain search strings the engine of the examples is the substring
    test of the specification. *)
Lemma regex_fragment_plain q :
  plain q = true →
  ∃ test, regex_fragment q "i" = Some test
          ∧ ∀ city, test city = contains_ignoring_case q city.
Proof.
  intros Hplain. unfold regex_fragment. simpl.
  rewrite (parse_atoms_plain q Hplain). simpl. eexists. split; [done|].
  intros city. unfold contains_ignoring_case.
  induction city as [|d city IH]; simpl.
  - rewrite match_here_literal. done.
  - rewrite match_here_literal, IH. done.
Qed.

(** With a plain search string, every record in the result has a city
    that contains the string, letter case ignored. *)
Lemma plain_query_results link q docs regs p :
  plain q = true → q ≠ ""%string →
  aggregate insertion_sort regex_fragment link (matchStage q) docs
  = Some regs →
  p ∈ all_provinces regs →
  contains_ignoring_case q (WeatherRecord.city p) = true.
Proof.
  intros Hplain Hq Hagg Hp.
  destruct (aggregate_provinces_matched insertion_sort regex_fragment
              insertion_sort_Permutation link q docs regs p Hagg Hp)
    as [_ Htest].
  destruct (Htest Hq) as (test & Hregex & Hcity).
  destruct (regex_fragment_plain q Hplain) as (test' & Hregex' & Hsame).
  rewrite Hregex in Hregex'. injection Hregex' as <-.
  by rewrite <- Hsame.
Qed.

(** C2 fails on a search string with a special character: for [q = "."]
    the dot stands for any character, every city passes the filter, and
    the result holds the record of Bangkok although "Bangkok" does not
    contain a dot. *)
Lemma dot_query_matches_every_city :
  aggregate insertion_sort regex_fragment always_up (matchStage ".")
    sample_records = Some sample_regions
  ∧ bangkok_new ∈ all_provinces sample_regions
  ∧ contains_ignoring_case "." (WeatherRecord.city bangkok_new) = false.
Proof.
  split; [vm_compute; reflexivity|]. split; [|vm_compute; reflexivity].
  unfold all_provinces, sample_regions. simpl. right. left.
Qed.

(** ** The claims about the queries, run on the examples *)

Lemma aggregate_latest_per_city_witness :
  ∃ d, filter (λ p, WeatherRecord.city p = "Bangkok"%string)
              (all_provinces
                 [ {| _id := "Central"; provinces := [bangkok_new] |} ])
       = [d]
       ∧ d ∈ sample_records ∧ WeatherRecord.city d = "Bangkok"%string
       ∧ ∀ d', d' ∈ sample_records →
               WeatherRecord.city d' = "Bangkok"%string →
               WeatherRecord.timestamp d' ≤ WeatherRecord.timestamp d.
Proof.
  apply (aggregate_latest_per_city insertion_sort regex_fragment
           insertion_sort_Permutation insertion_sort_sorted
           always_up "bang" sample_records).
  - vm_compute. reflexivity.
  - exists bangkok_old. split; [left|reflexivity].
  - intros _. eexists. split; [vm_compute; reflexivity|].
    vm_compute. reflexivity.
Defined.

Lemma aggregate_sorted_witness :
  StronglySorted (λ a b, String.ltb (_id a) (_id b) = true) sample_regions
  ∧ Forall (λ r, StronglySorted
                   (λ a b, String.ltb (WeatherRecord.city a)
                                      (WeatherRecord.city b) = true)
                   (provinces r)) sample_regions.
Proof.
  apply (aggregate_sorted insertion_sort regex_fragment
           insertion_sort_Permutation insertion_sort_sorted
           always_up (matchStage "") sample_records).
  vm_compute. reflexivity.
Defined.

Lemma find_recent_latest_five_witness :
  StronglySorted (λ a b, SensorReading.timestamp b
                         ≤ SensorReading.timestamp a) sample_recent
  ∧ length sample_recent = Nat.min 5 (length sample_sensors)
  ∧ (length sample_sensors ≤ 5 → sample_recent ≡ₚ sample_sensors)%nat
  ∧ ∃ rest, sample_recent ++ rest ≡ₚ sample_sensors
            ∧ ∀ x y, x ∈ sample_recent → y ∈ rest →
                     SensorReading.timestamp y ≤ SensorReading.timestamp x.
Proof.
  apply (find_recent_latest_five insertion_sort
           insertion_sort_Permutation insertion_sort_sorted always_up).
  vm_compute. reflexivity.
Defined.

(** ** Worked examples *)

Example Number_of_strings :
  Number (JString "abc") = Some NaN
  ∧ Number (JString "") = Some pos_zero
  ∧ Number (JString " 25 ") = Some (integer_to_double 25)
  ∧ Number (JString "0x1F") = Some (integer_to_double 31)
  ∧ Number (JString "-0x1F") = Some NaN
  ∧ Number (JString "1e") = Some NaN
  ∧ Number (JString "2.5") = Some (S754_finite false 5629499534213120 (-51))
  ∧ Number (JString "1e400") = Some (S754_infinity false)
  ∧ Number (JString "-Infinity") = Some (S754_infinity true).
Proof. vm_compute. repeat split. Qed.

Example Number_of_other_values :
  Number JNull = Some pos_zero
  ∧ Number (JBool true) = Some (integer_to_double 1)
  ∧ Number (JArray []) = Some pos_zero
  ∧ Number (JArray [JString "7"]) = Some (integer_to_double 7)
  ∧ Number (JArray [JNumber (integer_to_double 1);
                    JNumber (integer_to_double 2)]) = Some NaN
  ∧ Number (JObject []) = Some NaN
  ∧ Number (JObject [("valueOf"%string, JNumber (integer_to_double 1))])
    = Some NaN
  ∧ Number (JObject [("toString"%string, JNumber (integer_to_double 1))])
    = None
  ∧ Number (JArray [JNull; JArray [JObject [("toString"%string, JNull)]]])
    = None.
Proof. vm_compute. repeat split. Qed.

Example formatInTimeZone_examples :
  formatInTimeZone (fixed_offset 0) 0 = Some "1/1/1970 07:00:00"%string
  ∧ formatInTimeZone (fixed_offset 0) 951782400000
    = Some "29/2/2000 07:00:00"%string
  ∧ formatInTimeZone (fixed_offset 0) 1735664399000
    = Some "31/12/2024 23:59:59"%string
  ∧ formatInTimeZone (fixed_offset 0) 1735664400000
    = Some "1/1/2025 00:00:00"%string
  ∧ formatInTimeZone (fixed_offset 25200000) 1735664400000
    = Some "1/1/2025 00:00:00"%string
  ∧ formatInTimeZone (fixed_offset 0) (max_time + 1) = None.
Proof. vm_compute. repeat split. Qed.

(** A search for "ANG" keeps Bangkok and Chiang Mai; the latest record
    of Bangkok is shown. *)
Example get_root_search :
  ∃ locals,
    get_root insertion_sort regex_fragment (fixed_offset 0) always_up (Some "ANG"%string)
      {| records := sample_records; sensors := sample_sensors |}
    = ({| records := sample_records; sensors := sample_sensors |},
       Rendered "index" locals)
    ∧ (λ r, (_id r, (λ f, (WeatherRecord.city (document f),
                          formattedTimestamp f)) <$> provinces r))
        <$> regions locals
      = [ ("Central"%string, [("Bangkok"%string, "5/3/2024 17:00:00"%string)]);
          ("North"%string, [("Chiang Mai"%string, "5/3/2024 16:30:00"%string)]) ]
    ∧ document <$> sensorData locals = sample_recent
    ∧ query locals = "ANG"%string.
Proof. eexists. split; [vm_compute; reflexivity|]. vm_compute. done. Qed.

(** A record whose timestamp is not a valid date makes the whole request
    fail. *)
Example get_root_invalid_timestamp :
  let db := {| records := [WeatherRecord.mk "Bangkok" "Central"
                             (max_time + 1) []];
               sensors := sample_sensors |} in
  get_root insertion_sort regex_fragment (fixed_offset 0) always_up None db
  = (db, Sent 500 server_error_text).
Proof. vm_compute. reflexivity. Qed.

(** * Further properties *)

(** ** Of the aggregation pipeline *)

Lemma sorted_head_unique {A} (R : relation A) (P : A → Prop)
    `{∀ x, Decision (P x)} (l l' : list A) :
  StronglySorted R l → StronglySorted R l' → l ≡ₚ l' →
  (∀ x y, x ∈ l → y ∈ l → P x → P y → R x y → R y x → x = y) →
  head (filter P l) = head (filter P l').
Proof.
  intros Hl Hl' Hperm Huniq.
  destruct (head (filter P l)) as [x|] eqn:Hx;
    destruct (head (filter P l')) as [x'|] eqn:Hx'; [|exfalso..|done].
  - destruct (head_filter_sorted R P l x Hl Hx) as (Hin & HP & Hmax).
    destruct (head_filter_sorted R P l' x' Hl' Hx') as (Hin' & HP' & Hmax').
    rewrite <- Hperm in Hin'. f_equal.
    destruct (Hmax x' Hin' HP') as [->|Hxx']; [done|].
    destruct (Hmax' x) as [->|Hx'x]; [by rewrite <- Hperm|done|done|].
    symmetry. by apply Huniq.
  - destruct (head_filter_sorted R P l x Hl Hx) as (Hin & HP & _).
    apply head_None in Hx'. rewrite Hperm in Hin.
    by eapply filter_nil_not_elem_of.
  - destruct (head_filter_sorted R P l' x' Hl' Hx') as (Hin & HP & _).
    apply head_None in Hx. rewrite <- Hperm in Hin.
    by eapply filter_nil_not_elem_of.
Qed.

Section Aggregation.

Context (sort_by : ∀ A : Type, (A → A → bool) → list A → list A).
Context (regex : string → string → option (string → bool)).

Hypothesis sort_by_Permutation :
  ∀ A (le : A → A → bool) l, sort_by A le l ≡ₚ l.
Hypothesis sort_by_sorted :
  ∀ A (le : A → A → bool) l,
    (∀ x y, le x y = true ∨ le y x = true) →
    (∀ x y z, le x y = true → le y z = true → le x z = true) →
    StronglySorted (λ x y, le x y = true) (sort_by A le l).

(** The provinces of a region are the documents of that region among
    those that reach the second [$group], in their order. *)
Lemma aggregate_region link stage docs regs r :
  aggregate sort_by regex link stage docs = Some regs →
  r ∈ regs →
  ∃ by_city,
    all_provinces regs ≡ₚ by_city
    ∧ provinces r = filter (λ d, WeatherRecord.region d = _id r) by_city
    ∧ provinces r ≠ [].
Proof.
  intros (matched & Hmatch & ->)%aggregate_Some Hr.
  set (latest := (map_to_list
                    (group_first (sort_by _ timestamp_desc matched))).*2) in *.
  set (by_city := sort_by _ city_asc latest) in *.
  exists by_city. split.
  { unfold all_provinces.
    by rewrite sort_by_Permutation, regions_values, group_push_values. }
  rewrite sort_by_Permutation in Hr.
  apply list_elem_of_fmap in Hr as ([g ps] & -> & Hg). simpl.
  apply elem_of_map_to_list in Hg. rewrite group_push_lookup in Hg.
  destruct (filter _ by_city) as [|p k] eqn:Hk; [done|].
  by injection Hg as <-.
Qed.

(** X1: every region of the result has at least one province, and its
    provinces are exactly the provinces of the result whose [region] is
    the name of the region. *)
Theorem aggregate_regions_partition link stage docs regs r :
  aggregate sort_by regex link stage docs = Some regs →
  r ∈ regs →
  provinces r ≠ []
  ∧ ∀ p, p ∈ provinces r
         ↔ p ∈ all_provinces regs ∧ WeatherRecord.region p = _id r.
Proof.
  intros Hagg Hr.
  destruct (aggregate_region _ _ _ _ _ Hagg Hr) as (by_city & Hall & Hps & Hne).
  split; [done|]. intros p.
  rewrite Hps, list_elem_of_filter, Hall. tauto.
Qed.

(** The latest matching record of the city of any matching record is a
    province of some region. *)
Lemma aggregate_covers link stage docs regs matched d :
  aggregate sort_by regex link stage docs = Some regs →
  run_match regex stage docs = Some matched →
  d ∈ matched →
  ∃ r p, r ∈ regs ∧ p ∈ provinces r
         ∧ WeatherRecord.city p = WeatherRecord.city d
         ∧ WeatherRecord.timestamp d ≤ WeatherRecord.timestamp p.
Proof.
  intros Hagg Hmatch Hd.
  destruct (aggregate_provinces sort_by regex sort_by_Permutation
              _ _ _ _ Hagg) as (matched' & Hmatch' & Hperm).
  assert (matched' = matched) as -> by congruence.
  set (sorted := sort_by _ timestamp_desc matched) in *.
  assert (d ∈ sorted) as Hds by (unfold sorted; by rewrite sort_by_Permutation).
  destruct (head (filter (λ x, WeatherRecord.city x = WeatherRecord.city d)
                         sorted)) as [p|] eqn:Hhead.
  2:{ apply head_None in Hhead. exfalso.
      by eapply (filter_nil_not_elem_of _ _ d Hhead). }
  pose proof (head_filter_sorted _ _ _ _
                (sort_by_sorted _ _ matched timestamp_desc_total
                   timestamp_desc_trans) Hhead) as (Hp & Hcity & Hmax).
  assert (p ∈ all_provinces regs) as Hin.
  { rewrite Hperm. apply list_elem_of_fmap.
    exists (WeatherRecord.city d, p). split; [done|].
    apply elem_of_map_to_list. by rewrite group_first_lookup. }
  unfold all_provinces in Hin.
  apply list_elem_of_join in Hin as (ps & Hpps & Hps).
  apply list_elem_of_fmap in Hps as (r & -> & Hr).
  exists r, p. split; [done|]. split; [done|]. split; [done|].
  destruct (Hmax d Hds eq_refl) as [->|Hle]; [lia|].
  unfold timestamp_desc in Hle. lia.
Qed.

(** X2: a city is shown in the result exactly when the collection holds
    a record of it and, if a search string is given, the filter accepts
    its name; and every province shown is a record of the collection. *)
Theorem aggregate_cities link q docs regs :
  aggregate sort_by regex link (matchStage q) docs = Some regs →
  (∀ p, p ∈ all_provinces regs → p ∈ docs)
  ∧ ∀ c, (∃ p, p ∈ all_provinces regs ∧ WeatherRecord.city p = c)
         ↔ (∃ d, d ∈ docs ∧ WeatherRecord.city d = c)
           ∧ (q ≠ ""%string →
              ∃ test, regex q "i" = Some test ∧ test c = true).
Proof.
  intros Hagg. split.
  { intros p Hp.
    by destruct (aggregate_provinces_matched sort_by regex
                   sort_by_Permutation _ _ _ _ _ Hagg Hp). }
  intros c. split.
  - intros (p & Hp & <-).
    destruct (aggregate_provinces_matched sort_by regex
                sort_by_Permutation _ _ _ _ _ Hagg Hp) as [Hdocs Hq].
    split; [by exists p|done].
  - intros [(d & Hd & <-) Hq].
    destruct (aggregate_Some _ _ _ _ _ _ Hagg) as (matched & Hmatch & _).
    assert (d ∈ matched) as Hdm.
    { apply (run_match_elem_of _ _ _ _ _ Hmatch). split; [done|].
      unfold matchStage in *. by destruct (String.eqb_spec q ""); auto. }
    destruct (aggregate_covers _ _ _ _ _ _ Hagg Hmatch Hdm)
      as (r & p & Hr & Hp & Hcity & _).
    exists p. split; [|done]. unfold all_provinces.
    apply list_elem_of_join. exists (provinces r). split; [done|].
    by apply list_elem_of_fmap_2.
Qed.

(** X3: when no two records of the same city carry the same timestamp,
    the result does not depend on the order in which the collection
    holds its records, whatever order the storage gives to ties. *)
Theorem aggregate_order_independent link stage docs docs' :
  docs ≡ₚ docs' →
  (∀ d1 d2, d1 ∈ docs → d2 ∈ docs →
            WeatherRecord.city d1 = WeatherRecord.city d2 →
            WeatherRecord.timestamp d1 = WeatherRecord.timestamp d2 →
            d1 = d2) →
  aggregate sort_by regex link stage docs
  = aggregate sort_by regex link stage docs'.
Proof.
  intros Hperm Hdistinct.
  assert (∀ matched matched',
            matched ≡ₚ matched' → (∀ d, d ∈ matched → d ∈ docs) →
            group_first (sort_by _ timestamp_desc matched)
            = group_first (sort_by _ timestamp_desc matched')) as Hfirst.
  { intros matched matched' Hpm Hsub.
    apply map_eq. intros c. rewrite !group_first_lookup.
    apply (sorted_head_unique (λ x y, timestamp_desc x y = true)).
    - apply sort_by_sorted; [apply timestamp_desc_total|].
      apply timestamp_desc_trans.
    - apply sort_by_sorted; [apply timestamp_desc_total|].
      apply timestamp_desc_trans.
    - by rewrite !sort_by_Permutation.
    - intros x y Hx Hy Hcx Hcy Hxy Hyx.
      rewrite sort_by_Permutation in Hx, Hy.
      apply Hdistinct; [by apply Hsub|by apply Hsub|congruence|].
      unfold timestamp_desc in *. lia. }
  unfold aggregate. destruct (aggregate_answers link); [|done].
  destruct stage as [|pattern options]; simpl.
  - by rewrite (Hfirst docs docs').
  - destruct (regex pattern options) as [test|]; [|done]. simpl.
    rewrite (Hfirst (filter (λ d, test (WeatherRecord.city d) = true) docs)
               (filter (λ d, test (WeatherRecord.city d) = true) docs')).
    + done.
    + by rewrite Hperm.
    + by intros d [_ ?]%list_elem_of_filter.
Qed.

End Aggregation.

(** ** Of the dashboard handler *)

Lemma formatInTimeZone_out_of_range LocalTZA date :
  max_time < date + 25200000 → formatInTimeZone LocalTZA date = None.
Proof.
  intros Hlate. unfold formatInTimeZone, toZonedTime.
  destruct (isValid date); [|done].
  assert (TimeClip (date + timeZoneOffset date) = None) as ->; [|done].
  unfold TimeClip, isValid, timeZoneOffset.
  destruct (Z.ltb_spec date bangkok_utc7_start) as [Hold|_].
  { unfold bangkok_utc7_start, max_time in *. lia. }
  assert ((date + 25200000 <=? max_time) = false) as -> by lia.
  by rewrite andb_false_r.
Qed.

Section Serving.

Context (sort_by : ∀ A : Type, (A → A → bool) → list A → list A).
Context (regex : string → string → option (string → bool)).
Context (LocalTZA : Z → bool → Z).

Hypothesis sort_by_Permutation :
  ∀ A (le : A → A → bool) l, sort_by A le l ≡ₚ l.
Hypothesis sort_by_sorted :
  ∀ A (le : A → A → bool) l,
    (∀ x y, le x y = true ∨ le y x = true) →
    (∀ x y z, le x y = true → le y z = true → le x z = true) →
    StronglySorted (λ x y, le x y = true) (sort_by A le l).

Lemma get_root_Rendered link q db view locals :
  (get_root sort_by regex LocalTZA link q db).2 = Rendered view locals →
  ∃ regs readings,
    aggregate sort_by regex link (matchStage (default ""%string q))
      (records db) = Some regs
    ∧ mapM (format_region LocalTZA) regs = Some (regions locals)
    ∧ find_recent sort_by link (sensors db) = Some readings
    ∧ mapM (format_sensor LocalTZA) readings = Some (sensorData locals).
Proof.
  unfold get_root, dashboard_locals.
  destruct (aggregate _ _ _ _ _) as [regs|]; simpl; [|done].
  destruct (mapM (format_region LocalTZA) regs) as [vs|] eqn:Hvs; simpl; [|done].
  destruct (find_recent _ _ _) as [readings|]; simpl; [|done].
  destruct (mapM (format_sensor LocalTZA) readings) as [fs|] eqn:Hfs; simpl; [|done].
  intros [= <- <-]. exists regs, readings. simpl. done.
Qed.

(** X4: one record is enough to take the dashboard down.  If the
    collection holds a record that the search does not filter out and
    whose timestamp lies beyond the last instant that can be formatted
    (less than seven hours before the end of the range of dates), every
    request for the dashboard is answered with status 500. *)
Theorem get_root_unformattable_record link q db d :
  d ∈ records db →
  max_time < WeatherRecord.timestamp d + 25200000 →
  (default ""%string q = ""%string
   ∨ ∀ test, regex (default ""%string q) "i" = Some test →
             test (WeatherRecord.city d) = true) →
  (get_root sort_by regex LocalTZA link q db).2 = Sent 500 server_error_text.
Proof.
  intros Hd Hlate Hkept. unfold get_root, dashboard_locals.
  destruct (aggregate _ _ _ _ _) as [regs|] eqn:Hagg; simpl; [|done].
  assert (mapM (format_region LocalTZA) regs = None) as ->; [|done].
  destruct (aggregate_Some _ _ _ _ _ _ Hagg) as (matched & Hmatch & _).
  assert (d ∈ matched) as Hdm.
  { apply (run_match_elem_of _ _ _ _ _ Hmatch). split; [done|].
    unfold matchStage in *.
    destruct (String.eqb_spec (default ""%string q) ""); [done|].
    simpl in Hmatch.
    destruct (regex (default ""%string q) "i") as [test|] eqn:Htest; [|done].
    exists test. split; [done|]. destruct Hkept as [?|Hkept]; [done|].
    by apply Hkept. }
  destruct (aggregate_covers sort_by regex sort_by_Permutation sort_by_sorted
              _ _ _ _ _ _ Hagg Hmatch Hdm) as (r & p & Hr & Hp & _ & Hts).
  apply mapM_None_2, Exists_exists. exists r. split; [done|].
  apply (format_region_None _ r p Hp), formatInTimeZone_out_of_range. lia.
Qed.

Lemma sorted_head_newest (docs : list SensorReading.t) r :
  (∀ s, s ∈ docs →
        SensorReading.timestamp s < SensorReading.timestamp r) →
  head (sort_by _ sensor_timestamp_desc (docs ++ [r])) = Some r.
Proof.
  intros Hnew.
  pose proof (sort_by_Permutation _ sensor_timestamp_desc (docs ++ [r]))
    as Hperm.
  pose proof (sort_by_sorted _ sensor_timestamp_desc (docs ++ [r])
                sensor_timestamp_desc_total sensor_timestamp_desc_trans)
    as Hsorted.
  destruct (sort_by _ sensor_timestamp_desc (docs ++ [r])) as [|x rest].
  { apply Permutation_nil_l in Hperm. by destruct docs. }
  simpl. f_equal.
  assert (x ∈ docs ++ [r]) as Hx by (rewrite <- Hperm; left).
  assert (r ∈ x :: rest) as Hr.
  { rewrite Hperm. apply elem_of_app. right. left. }
  apply elem_of_app in Hx as [Hx|Hx]; [|by apply list_elem_of_singleton in Hx].
  specialize (Hnew x Hx).
  apply elem_of_cons in Hr as [->|Hr]; [done|].
  apply StronglySorted_inv in Hsorted as [_ Hall].
  eapply Forall_forall in Hall; [|exact Hr].
  unfold sensor_timestamp_desc in Hall. lia.
Qed.

(** X6: a reading that has just been stored, with a clock later than the
    timestamp of every stored reading, is the first sensor row of the
    next dashboard that is rendered, with its coerced values and its
    timestamp formatted.  A reading is stored when both values are
    present, [Number] converts both and the storage accepts the
    insert. *)
Theorem posted_reading_on_top link link' now (body : gmap string js_value)
    db q temperature humidity t h view locals :
  body !! "temperature" = Some temperature →
  body !! "humidity" = Some humidity →
  Number temperature = Some t →
  Number humidity = Some h →
  insertOne_answers link = true →
  (∀ s, s ∈ sensors db → SensorReading.timestamp s < now) →
  (get_root sort_by regex LocalTZA link' q (post_sensor link now body db).1).2
  = Rendered view locals →
  ∃ f, head (sensorData locals) = Some f
       ∧ document f = SensorReading.mk t h now
       ∧ formatInTimeZone LocalTZA now = Some (formattedTimestamp f).
Proof.
  intros Ht Hh Hnt Hnh Hup Hnew Hget.
  assert ((post_sensor link now body db).1
          = insertOne (SensorReading.mk t h now) db) as Hpost.
  { unfold post_sensor, newSensorRecord. by rewrite Ht, Hh, Hnt, Hnh, Hup. }
  rewrite Hpost in Hget.
  apply get_root_Rendered in Hget
    as (regs & readings & _ & _ & Hfind & Hfmt).
  unfold find_recent in Hfind.
  destruct (find_answers link'); [|done]. injection Hfind as <-.
  simpl sensors in Hfmt.
  pose proof (sorted_head_newest (sensors db) (SensorReading.mk t h now) Hnew)
    as Hhead.
  apply head_Some in Hhead as [rest Hsorted]. rewrite Hsorted in Hfmt.
  simpl take in Hfmt.
  apply mapM_Some_1 in Hfmt.
  apply Forall2_cons_inv_l in Hfmt as (f & fs & Hf & _ & ->).
  exists f. split; [done|].
  by apply format_sensor_Some in Hf as [-> ?].
Qed.

(** What serving one request does to the database and how the response
    tells. *)
Lemma serve_step link req db :
  records (serve sort_by regex LocalTZA link req db).1 = records db
  ∧ ((sensors (serve sort_by regex LocalTZA link req db).1 = sensors db
      ∧ is_created (serve sort_by regex LocalTZA link req db).2 = false)
     ∨ ∃ now body r,
         req = PostSensor now body
         ∧ sensors (serve sort_by regex LocalTZA link req db).1 = sensors db ++ [r]
         ∧ SensorReading.timestamp r = now
         ∧ is_created (serve sort_by regex LocalTZA link req db).2 = true).
Proof.
  destruct req as [q|now body]; simpl.
  - unfold get_root. destruct (dashboard_locals _ _ _ _ _ _); simpl; auto.
  - unfold post_sensor, newSensorRecord.
    destruct (body !! "temperature") as [temperature|]; [|simpl; auto].
    destruct (body !! "humidity") as [humidity|]; [|simpl; auto].
    destruct (Number temperature) as [t|]; [|simpl; auto].
    destruct (Number humidity) as [h|]; [|simpl; auto]. simpl.
    destruct (insertOne_answers link); [|simpl; auto].
    simpl. split; [done|]. right. by eexists now, body, _.
Qed.

(** X5: whatever requests are served one after another, [records] is
    left as it was and [sensors] only grows at its end: the readings
    stored before are all kept, unchanged and in their order, exactly one
    reading is added for each response with status 201, and the
    timestamps of the added readings are clocks of the [POST] requests,
    in the order of the requests. *)
Theorem serve_all_append_only reqs db :
  let out := serve_all sort_by regex LocalTZA reqs db in
  records out.1 = records db
  ∧ length out.2 = length reqs
  ∧ ∃ added,
      sensors out.1 = sensors db ++ added
      ∧ length added = length (filter (λ res, is_created res = true) out.2)
      ∧ SensorReading.timestamp <$> added `sublist_of` post_clocks reqs.
Proof.
  cbv zeta. revert db.
  induction reqs as [|[link req] reqs IH]; intros db.
  { simpl. split; [done|]. split; [done|]. exists []. by rewrite app_nil_r. }
  simpl serve_all.
  destruct (serve sort_by regex LocalTZA link req db) as [db1 res] eqn:Hserve.
  destruct (serve_all sort_by regex LocalTZA reqs db1) as [db2 ress] eqn:Hrest.
  specialize (IH db1). rewrite Hrest in IH.
  destruct IH as (Hrec & Hlen & added & Hsens & Hcount & Hsub).
  pose proof (serve_step link req db) as [Hrec1 Hstep].
  rewrite Hserve in Hrec1, Hstep. simpl in *.
  split; [congruence|]. split; [by rewrite Hlen|].
  destruct Hstep as [[Hsame Hres]|(now & body & r & -> & Hgrow & Hts & Hres)].
  - exists added. split; [congruence|].
    rewrite filter_cons_False by congruence. split; [done|].
    unfold post_clocks in *. simpl.
    destruct req as [q|now body]; simpl; [done|]. by apply sublist_cons.
  - exists (r :: added). split.
    { rewrite Hsens, Hgrow, <- app_assoc. done. }
    rewrite filter_cons_True by done. simpl. split; [by rewrite Hcount|].
    unfold post_clocks in *. simpl. rewrite Hts. by apply sublist_skip.
Qed.

End Serving.

(** X7: the formatter prints nothing finer than the second: two
    instants within the same second, when both can be formatted, are
    printed alike, in every server zone whose offsets are whole seconds
    and change at whole seconds only. *)
Theorem formatInTimeZone_same_second (LocalTZA : Z → bool → Z) date date' :
  (∀ t isUTC, LocalTZA t isUTC mod 1000 = 0) →
  (∀ t t' isUTC, t / 1000 = t' / 1000 → LocalTZA t isUTC = LocalTZA t' isUTC) →
  date / 1000 = date' / 1000 →
  is_Some (formatInTimeZone LocalTZA date) →
  is_Some (formatInTimeZone LocalTZA date') →
  formatInTimeZone LocalTZA date = formatInTimeZone LocalTZA date'.
Proof.
  intros Hwhole Hstep Hsec [text Ht] [text' Ht']. rewrite Ht, Ht'. f_equal.
  revert Ht Ht'. unfold formatInTimeZone.
  destruct (toZonedTime LocalTZA date) as [z|] eqn:Hz; [|done].
  destruct (toZonedTime LocalTZA date') as [z'|] eqn:Hz'; [|done].
  simpl. intros [= <-] [= <-].
  apply toZonedTime_Some in Hz as (u & _ & _ & Hu & Hz).
  apply toZonedTime_Some in Hz' as (u' & _ & _ & Hu' & Hz').
  assert (timeZoneOffset date = timeZoneOffset date') as Hoff.
  { unfold timeZoneOffset, bangkok_utc7_start.
    destruct (Z.ltb_spec date (-1570084924000));
      destruct (Z.ltb_spec date' (-1570084924000)); try done;
      exfalso; Z.div_mod_to_equations; lia. }
  rewrite <- Hoff in Hu', Hz'.
  pose proof (timeZoneOffset_cases date) as Hoffs.
  set (off := timeZoneOffset date) in *.
  assert (Day (date + off) = Day (date' + off)) as HD.
  { unfold Day, msPerDay. destruct Hoffs as [-> | ->];
      Z.div_mod_to_equations; lia. }
  assert (HourFromTime (date + off) = HourFromTime (date' + off)) as HH.
  { unfold HourFromTime, msPerHour. destruct Hoffs as [-> | ->];
      Z.div_mod_to_equations; lia. }
  assert (MinFromTime (date + off) = MinFromTime (date' + off)) as HM.
  { unfold MinFromTime, msPerMinute. destruct Hoffs as [-> | ->];
      Z.div_mod_to_equations; lia. }
  assert (SecFromTime (date + off) = SecFromTime (date' + off)) as HS.
  { unfold SecFromTime, msPerSecond. destruct Hoffs as [-> | ->];
      Z.div_mod_to_equations; lia. }
  rewrite <- HD, Hu in Hu'. injection Hu' as <-.
  rewrite <- HH, <- HM, <- HS in Hz'.
  apply TimeClip_inv in Hz as [-> _]. apply TimeClip_inv in Hz' as [-> _].
  apply format_same_second.
  destruct (time_of_day_spec (date + off)) as (_ & _ & _ & _ & Hms).
  destruct (time_of_day_spec (date' + off)) as (_ & _ & _ & _ & Hms').
  set (w := MakeDate _ (MakeTime _ _ _ ((date + off) mod msPerSecond))).
  set (w' := MakeDate _ (MakeTime _ _ _ ((date' + off) mod msPerSecond))).
  assert (w / 1000 = w' / 1000) as Hw.
  { unfold w, w', MakeDate, MakeTime, msPerDay, msPerHour, msPerMinute,
      msPerSecond in *.
    Z.div_mod_to_equations. lia. }
  unfold LocalTime, UTC. rewrite (Hstep w w' false Hw).
  pose proof (Hwhole w' false) as Ho. set (o := LocalTZA w' false) in *.
  assert ((w - o) / 1000 = (w' - o) / 1000) as Hz
    by (Z.div_mod_to_equations; lia).
  rewrite (Hstep (w - o) (w' - o) true Hz).
  pose proof (Hwhole (w' - o) true) as Ho'.
  Z.div_mod_to_equations. lia.
Qed.

Lemma formatInTimeZone_same_second_witness :
  formatInTimeZone (one_transition 1710054000000 (-18000000) (-14400000))
    1710012600000
  = formatInTimeZone (one_transition 1710054000000 (-18000000) (-14400000))
      1710012600999.
Proof.
  apply (formatInTimeZone_same_second
           (one_transition 1710054000000 (-18000000) (-14400000))
           1710012600000 1710012600999).
  - intros t [|]; unfold one_transition; repeat case_match; reflexivity.
  - intros t t' [|] Ht; unfold one_transition;
      change (1710054000000 + Z.max (-18000000) (-14400000))
        with 1710039600000;
      repeat match goal with
             | |- context [?a <? ?b] => destruct (Z.ltb_spec a b)
             end;
      try reflexivity; exfalso; Z.div_mod_to_equations; lia.
  - vm_compute. reflexivity.
  - vm_compute. eauto.
  - vm_compute. eauto.
Defined.

(** ** Of the start-up sequence *)

Lemma connectDB_calls_connected outcomes st :
  is_Some (Connection.db st) → connectDB_calls outcomes st = Some st.
Proof.
  intros [name Hdb]. induction outcomes as [|c outcomes IH]; [done|].
  simpl. unfold connectDB. rewrite Hdb. simpl. exact IH.
Qed.

(** X8: [connectDB()] connects at most once.  When the first call
    succeeds, the handle is the database [weatherdb] and any number of
    further calls return at once: they do not call the driver again and
    do not exit, even if the storage has become unreachable.  When the
    first call fails, the process exits. *)
Theorem connectDB_connects_once outcomes :
  connectDB_calls (true :: outcomes) not_connected
  = Some {| Connection.db := Some "weatherdb"%string;
            Connection.connect_calls := 1 |}
  ∧ connectDB_calls (false :: outcomes) not_connected = None.
Proof.
  split; [|done]. simpl. apply connectDB_calls_connected. simpl. eauto.
Qed.

(** X9: the server listens exactly when [MONGO_URI] is set, is not
    empty, starts with [mongodb], the connection is established and
    [app.listen] gets the port; the port is [PORT], or 3000 when [PORT]
    is unset or empty. *)
Theorem main_listening_iff connects listens PORT MONGO_URI port :
  main connects listens PORT MONGO_URI = Listening port
  ↔ (∃ uri, MONGO_URI = Some uri ∧ uri ≠ ""%string
            ∧ startsWith uri "mongodb" = true ∧ connects uri = true)
    ∧ (port = "3000"%string ∧ (PORT = None ∨ PORT = Some ""%string)
       ∨ PORT = Some port ∧ port ≠ ""%string)
    ∧ listens port = true.
Proof.
  unfold main. split.
  - destruct MONGO_URI as [uri|]; [|done].
    destruct (String.eqb_spec uri ""); [done|]. simpl.
    destruct (startsWith uri "mongodb") eqn:Hscheme; [|done]. simpl.
    destruct (connects uri) eqn:Hconn; [|done].
    destruct (listens _) eqn:Hlistens; [|done].
    intros [= <-]. split; [by exists uri|]. split; [|done].
    destruct PORT as [p|]; [|auto].
    destruct (String.eqb_spec p ""); subst; auto.
  - intros ((uri & -> & Hne & Hscheme & Hconn) & Hport & Hlistens).
    rewrite Hscheme, Hconn. destruct (String.eqb_spec uri ""); [done|].
    simpl.
    assert (match PORT with
            | Some p => if (p =? "")%string then "3000"%string else p
            | None => "3000"%string
            end = port) as ->; [|by rewrite Hlistens].
    destruct Hport as [[-> [->| ->]]|[-> Hp]]; [done..|].
    by destruct (String.eqb_spec port "").
Qed.

(** ** Of the coercion of the posted values *)

Lemma skip_ws_blank l :
  forallb (λ c, (9 <=? c)%N && (c <=? 13)%N || (c =? 32)%N) l = true →
  skip_ws (length l) l = [].
Proof.
  induction l as [|c l IH]; [done|]. simpl forallb.
  intros [Hc Hl]%andb_true_iff. simpl. rewrite Hc. by apply IH.
Qed.

Lemma StringToNumber_blank s : blank s = true → StringToNumber s = pos_zero.
Proof.
  intros Hblank. unfold StringToNumber. by rewrite skip_ws_blank.
Qed.

Lemma StringToNumber_letter c s :
  plain_letter c = true → StringToNumber (String c s) = NaN.
Proof.
  intros Hletter.
  destruct c as [[] [] [] [] [] [] [] []]; vm_compute in Hletter;
    try discriminate Hletter; reflexivity.
Qed.

Lemma digit_value_decimal n :
  (48 ≤ n ≤ 57)%N → digit_value 10 n = Some (n - 48)%N.
Proof.
  intros Hn. unfold digit_value.
  assert ((48 <=? n)%N && (n <=? 57)%N = true) as ->.
  { apply andb_true_iff. split; apply N.leb_le; lia. }
  by assert ((n - 48 <? 10)%N = true) as -> by (apply N.ltb_lt; lia).
Qed.

Lemma is_digit_range c : is_digit c = true → (48 ≤ N_of_ascii c ≤ 57)%N.
Proof.
  unfold is_digit. by intros [?%N.leb_le ?%N.leb_le]%andb_true_iff.
Qed.

(** The digits of a string that [decimal_value] reads. *)
Lemma decimal_value_from_digits s : ∀ acc n,
  decimal_value_from (Z.of_N acc) s = Some n →
  span_digits 10 (bytes s)
  = ((λ c, (N_of_ascii c - 48)%N) <$> list_ascii_of_string s, [])
  ∧ n = Z.of_N (fold_left (λ a d, (a * 10 + d)%N)
                  ((λ c, (N_of_ascii c - 48)%N) <$> list_ascii_of_string s)
                  acc).
Proof.
  induction s as [|c s IH]; intros acc n; simpl.
  { by intros [= <-]. }
  destruct (is_digit c) eqn:Hd; [|done]. intros Hn.
  pose proof (is_digit_range c Hd) as Hc.
  replace (10 * Z.of_N acc + (Z.of_N (N_of_ascii c) - 48))
    with (Z.of_N (acc * 10 + (N_of_ascii c - 48))) in Hn by lia.
  destruct (IH _ _ Hn) as [Hspan ->].
  unfold bytes in *. simpl. rewrite digit_value_decimal by done.
  by rewrite Hspan.
Qed.

Lemma parse_unsigned_decimal_digit neg n r :
  (48 ≤ n ≤ 57)%N →
  parse_unsigned_decimal neg (n :: r)
  = let '(int_ds, r1) := span_digits 10 (n :: r) in
    let '(frac_ds, r2) :=
      match r1 with
      | 46%N :: r' => span_digits 10 r'
      | _ => ([], r1)
      end in
    match int_ds, frac_ds with
    | [], [] => NaN
    | _, _ =>
        let '(ex, r3) := parse_exponent r2 in
        if only_ws r3
        then decimal_to_double neg (digits_value 10 (int_ds ++ frac_ds))
                               (ex - Z.of_nat (length frac_ds))
        else NaN
    end.
Proof.
  intros Hn.
  assert (n = 48 ∨ n = 49 ∨ n = 50 ∨ n = 51 ∨ n = 52 ∨ n = 53 ∨ n = 54
          ∨ n = 55 ∨ n = 56 ∨ n = 57)%N as Hcases by lia.
  repeat destruct Hcases as [->|Hcases]; try subst n; reflexivity.
Qed.

Lemma skip_ws_char_digit n r : (48 ≤ n ≤ 57)%N → skip_ws_char (n :: r) = None.
Proof.
  intros Hn.
  assert (n = 48 ∨ n = 49 ∨ n = 50 ∨ n = 51 ∨ n = 52 ∨ n = 53 ∨ n = 54
          ∨ n = 55 ∨ n = 56 ∨ n = 57)%N as Hcases by lia.
  repeat destruct Hcases as [->|Hcases]; try subst n; reflexivity.
Qed.

(** A string of decimal digits takes the decimal branch of the
    conversion. *)
Lemma StringToNumber_digits_branch n r s :
  bytes s = n :: r → (48 ≤ n ≤ 57)%N →
  (∀ c r', r = c :: r' → (48 ≤ c ≤ 57)%N) →
  StringToNumber s = parse_unsigned_decimal false (n :: r).
Proof.
  intros Hbytes Hn Hr. unfold StringToNumber. rewrite Hbytes.
  change (skip_ws (length (n :: r)) (n :: r))
    with (match skip_ws_char (n :: r) with
          | Some r0 => skip_ws (length r) r0
          | None => n :: r
          end).
  rewrite skip_ws_char_digit by done.
  assert (n = 48 ∨ n = 49 ∨ n = 50 ∨ n = 51 ∨ n = 52 ∨ n = 53 ∨ n = 54
          ∨ n = 55 ∨ n = 56 ∨ n = 57)%N as Hcases by lia.
  destruct Hcases as [->|Hcases].
  - destruct r as [|c r']; [reflexivity|].
    specialize (Hr c r' eq_refl).
    assert (c = 48 ∨ c = 49 ∨ c = 50 ∨ c = 51 ∨ c = 52 ∨ c = 53 ∨ c = 54
            ∨ c = 55 ∨ c = 56 ∨ c = 57)%N as Hc by lia.
    repeat destruct Hc as [->|Hc]; try subst c; reflexivity.
  - repeat destruct Hcases as [->|Hcases]; try subst n; reflexivity.
Qed.

Lemma decimal_to_double_integer m :
  decimal_to_double false m 0 = integer_to_double m.
Proof.
  destruct m as [|p]; [done|].
  unfold decimal_to_double, integer_to_double. simpl.
  by rewrite Pos.mul_1_r.
Qed.

Lemma StringToNumber_decimal s n :
  decimal_value s = Some n → StringToNumber s = integer_to_double (Z.to_N n).
Proof.
  destruct s as [|c s]; [done|]. unfold decimal_value. intros Hvalue.
  destruct (decimal_value_from_digits (String c s) 0 n Hvalue)
    as [Hspan ->].
  assert (is_digit c = true) as Hc.
  { simpl in Hvalue. by destruct (is_digit c). }
  pose proof (is_digit_range c Hc) as Hc'.
  rewrite (StringToNumber_digits_branch (N_of_ascii c) (bytes s)
             (String c s)); [|done|done|].
  2:{ intros c2 r' Hr. destruct s as [|c' s']; [done|].
      injection Hr as <- _. simpl in Hvalue. rewrite Hc in Hvalue.
      destruct (is_digit c') eqn:Hc2; [|done]. by apply is_digit_range. }
  rewrite parse_unsigned_decimal_digit by done.
  change (N_of_ascii c :: bytes s) with (bytes (String c s)).
  rewrite Hspan. cbv beta iota zeta.
  set (ds := (λ c0, (N_of_ascii c0 - 48)%N) <$> _).
  assert (ds ≠ []) as Hne by done.
  destruct ds as [|d ds'] eqn:Hds; [done|].
  change (parse_exponent []) with (0, @nil N). cbv beta iota zeta.
  change (only_ws []) with true. cbv iota.
  rewrite app_nil_r, N2Z.id. simpl length. rewrite Z.sub_0_r.
  apply decimal_to_double_integer.
Qed.

(** What an accepted request stores. *)
Lemma post_sensor_stores link now (body : gmap string js_value) db
    temperature humidity t h :
  body !! "temperature" = Some temperature →
  body !! "humidity" = Some humidity →
  Number temperature = Some t →
  Number humidity = Some h →
  insertOne_answers link = true →
  post_sensor link now body db
  = (insertOne (SensorReading.mk t h now) db, created).
Proof.
  intros Ht Hh Hnt Hnh Hup. unfold post_sensor, newSensorRecord.
  by rewrite Ht, Hh, Hnt, Hnh, Hup.
Qed.

(** X10: a text that starts with an ASCII letter (other than the [I] of
    [Infinity]) is not rejected: sent as temperature, with a humidity
    that [Number] converts, it is stored as not-a-number, and the
    request is answered with status 201. *)
Theorem post_sensor_text_stored_as_NaN link now
    (body : gmap string js_value) db c s humidity h :
  body !! "temperature" = Some (JString (String c s)) →
  plain_letter c = true →
  body !! "humidity" = Some humidity →
  Number humidity = Some h →
  insertOne_answers link = true →
  post_sensor link now body db
  = (insertOne (SensorReading.mk NaN h now) db, created).
Proof.
  intros Ht Hletter Hh Hnh Hup.
  apply (post_sensor_stores _ _ _ _ _ _ _ _ Ht Hh); [|done..].
  simpl. by rewrite StringToNumber_letter.
Qed.

(** X11: an empty text, or a text of ASCII white space only, is not
    rejected either: sent as temperature, with a humidity that [Number]
    converts, it is stored as the number 0. *)
Theorem post_sensor_blank_stored_as_zero link now
    (body : gmap string js_value) db s humidity h :
  body !! "temperature" = Some (JString s) →
  blank s = true →
  body !! "humidity" = Some humidity →
  Number humidity = Some h →
  insertOne_answers link = true →
  post_sensor link now body db
  = (insertOne (SensorReading.mk pos_zero h now) db, created).
Proof.
  intros Ht Hblank Hh Hnh Hup.
  apply (post_sensor_stores _ _ _ _ _ _ _ _ Ht Hh); [|done..].
  simpl. by rewrite StringToNumber_blank.
Qed.

(** X12: a temperature sent as a text of decimal digits, with a humidity
    that [Number] converts, is stored as the number that the digits
    denote (the nearest binary64 value), leading zeros or not. *)
Theorem post_sensor_digits_stored_as_number link now
    (body : gmap string js_value) db s n humidity h :
  body !! "temperature" = Some (JString s) →
  decimal_value s = Some n →
  body !! "humidity" = Some humidity →
  Number humidity = Some h →
  insertOne_answers link = true →
  post_sensor link now body db
  = (insertOne (SensorReading.mk (integer_to_double (Z.to_N n)) h now) db,
     created).
Proof.
  intros Ht Hvalue Hh Hnh Hup.
  apply (post_sensor_stores _ _ _ _ _ _ _ _ Ht Hh); [|done..].
  simpl. by rewrite (StringToNumber_decimal s n).
Qed.

(** ** The dashboard is rendered for well-formed data *)

Lemma elem_of_take_5 {A} (l : list A) x : x ∈ take 5 l → x ∈ l.
Proof.
  intros Hx. rewrite <- (take_drop 5 l). apply elem_of_app. by left.
Qed.

(** X13: when the storage answers, the search string is empty or a
    pattern that the storage accepts, every stored timestamp lies
    between the epoch and a week before the end of the range of dates,
    and the zone of the server stays within a day of UTC, the dashboard
    is rendered: the answer is never status 500. *)
Theorem get_root_renders
    (sort_by : ∀ A : Type, (A → A → bool) → list A → list A)
    (regex : string → string → option (string → bool))
    (LocalTZA : Z → bool → Z) link q db :
  (∀ A (le : A → A → bool) l, sort_by A le l ≡ₚ l) →
  (∀ t isUTC, - msPerDay ≤ LocalTZA t isUTC ≤ msPerDay) →
  aggregate_answers link = true → find_answers link = true →
  (default ""%string q = ""%string
   ∨ is_Some (regex (default ""%string q) "i")) →
  (∀ d, d ∈ records db →
        0 ≤ WeatherRecord.timestamp d ≤ max_time - 7 * msPerDay) →
  (∀ s, s ∈ sensors db →
        0 ≤ SensorReading.timestamp s ≤ max_time - 7 * msPerDay) →
  ∃ locals,
    get_root sort_by regex LocalTZA link q db = (db, Rendered "index" locals)
    ∧ query locals = default ""%string q.
Proof.
  intros Hperm Hzone Hagg Hfind Hq Hrecords Hsensors.
  unfold get_root, dashboard_locals.
  destruct (aggregate sort_by regex link (matchStage (default ""%string q))
              (records db)) as [regs|] eqn:Hregs.
  2:{ exfalso. unfold aggregate, matchStage in Hregs. rewrite Hagg in Hregs.
      destruct (String.eqb_spec (default ""%string q) ""); [done|].
      simpl in Hregs. destruct Hq as [?|[test Htest]]; [done|].
      by rewrite Htest in Hregs. }
  simpl.
  destruct (mapM (format_region LocalTZA) regs) as [vs|] eqn:Hvs.
  2:{ exfalso. apply mapM_None_1, Exists_exists in Hvs as (r & Hr & Hnone).
      unfold format_region in Hnone.
      destruct (mapM (format_province LocalTZA) (provinces r)) as [ps|] eqn:Hps;
        [done|].
      apply mapM_None_1, Exists_exists in Hps as (p & Hp & Hpnone).
      assert (p ∈ all_provinces regs) as Hall.
      { unfold all_provinces. apply list_elem_of_join.
        exists (provinces r). split; [done|]. by apply list_elem_of_fmap_2. }
      destruct (aggregate_provinces_matched sort_by regex Hperm
                  _ _ _ _ _ Hregs Hall) as [Hdocs _].
      destruct (formatInTimeZone_in_range LocalTZA
                  (WeatherRecord.timestamp p) Hzone) as [text Htext].
      { specialize (Hrecords p Hdocs). unfold max_time, msPerDay in *. lia. }
      unfold format_province in Hpnone. by rewrite Htext in Hpnone. }
  simpl. unfold find_recent. rewrite Hfind. simpl.
  destruct (mapM (format_sensor LocalTZA) _) as [fs|] eqn:Hfs.
  2:{ exfalso. apply mapM_None_1, Exists_exists in Hfs as (s & Hs & Hnone).
      apply elem_of_take_5 in Hs. rewrite Hperm in Hs.
      destruct (formatInTimeZone_in_range LocalTZA
                  (SensorReading.timestamp s) Hzone) as [text Htext].
      { specialize (Hsensors s Hs). unfold max_time, msPerDay in *. lia. }
      unfold format_sensor in Hnone. by rewrite Htext in Hnone. }
  simpl. eexists. split; reflexivity.
Qed.

(** ** The further properties, run on the examples *)

Lemma sample_records_distinct d1 d2 :
  d1 ∈ sample_records → d2 ∈ sample_records →
  WeatherRecord.city d1 = WeatherRecord.city d2 →
  WeatherRecord.timestamp d1 = WeatherRecord.timestamp d2 →
  d1 = d2.
Proof.
  unfold sample_records. intros H1 H2.
  repeat (apply elem_of_cons in H1 as [->|H1]);
    try (by apply elem_of_nil in H1);
    repeat (apply elem_of_cons in H2 as [->|H2]);
    try (by apply elem_of_nil in H2);
    vm_compute; intros; first [reflexivity|discriminate].
Qed.

Lemma aggregate_regions_partition_witness :
  provinces {| _id := "Central"%string;
               provinces := [ayutthaya; bangkok_new] |} ≠ []
  ∧ ∀ p, p ∈ provinces {| _id := "Central"%string;
                          provinces := [ayutthaya; bangkok_new] |}
         ↔ p ∈ all_provinces sample_regions
           ∧ WeatherRecord.region p = "Central"%string.
Proof.
  apply (aggregate_regions_partition insertion_sort regex_fragment
           insertion_sort_Permutation always_up (matchStage "")
           sample_records sample_regions).
  - vm_compute. reflexivity.
  - left.
Defined.

Lemma aggregate_cities_witness :
  (∀ p, p ∈ all_provinces sample_regions → p ∈ sample_records)
  ∧ ∀ c, (∃ p, p ∈ all_provinces sample_regions ∧ WeatherRecord.city p = c)
         ↔ (∃ d, d ∈ sample_records ∧ WeatherRecord.city d = c)
           ∧ (""%string ≠ ""%string →
              ∃ test, regex_fragment "" "i" = Some test ∧ test c = true).
Proof.
  apply (aggregate_cities insertion_sort regex_fragment
           insertion_sort_Permutation insertion_sort_sorted
           always_up "" sample_records sample_regions).
  vm_compute. reflexivity.
Defined.

Lemma aggregate_order_independent_witness :
  aggregate insertion_sort regex_fragment always_up (matchStage "a")
    sample_records
  = aggregate insertion_sort regex_fragment always_up (matchStage "a")
      (reverse sample_records).
Proof.
  apply (aggregate_order_independent insertion_sort regex_fragment
           insertion_sort_Permutation insertion_sort_sorted).
  - symmetry. apply reverse_Permutation.
  - apply sample_records_distinct.
Defined.

Lemma get_root_unformattable_record_witness :
  (get_root insertion_sort regex_fragment (fixed_offset 0) always_up None
     {| records := WeatherRecord.mk "Bangkok" "Central" max_time []
                   :: sample_records;
        sensors := sample_sensors |}).2
  = Sent 500 server_error_text.
Proof.
  apply (get_root_unformattable_record insertion_sort regex_fragment
           (fixed_offset 0) insertion_sort_Permutation insertion_sort_sorted always_up None _
           (WeatherRecord.mk "Bangkok" "Central" max_time [])).
  - left.
  - vm_compute. reflexivity.
  - left. reflexivity.
Defined.

Lemma posted_reading_on_top_witness :
  ∃ f, head (sensorData posted_locals) = Some f
       ∧ document f
         = SensorReading.mk (integer_to_double 31) (integer_to_double 70)
             1700000009000
       ∧ formatInTimeZone (fixed_offset 0) 1700000009000
         = Some (formattedTimestamp f).
Proof.
  apply (posted_reading_on_top insertion_sort regex_fragment (fixed_offset 0)
           insertion_sort_Permutation insertion_sort_sorted
           always_up always_up 1700000009000 posted_body one_reading_db None
           (JString "31") (JNumber (integer_to_double 70))
           (integer_to_double 31) (integer_to_double 70)
           "index" posted_locals).
  - vm_compute. reflexivity.
  - vm_compute. reflexivity.
  - vm_compute. reflexivity.
  - vm_compute. reflexivity.
  - reflexivity.
  - intros s Hs. apply list_elem_of_singleton in Hs as ->.
    vm_compute. reflexivity.
  - vm_compute. reflexivity.
Defined.

Lemma get_root_renders_witness :
  ∃ locals,
    get_root insertion_sort regex_fragment
      (one_transition 1710054000000 (-18000000) (-14400000)) always_up
      (Some "ang"%string) sample_db
    = (sample_db, Rendered "index" locals)
    ∧ query locals = "ang"%string.
Proof.
  apply (get_root_renders insertion_sort regex_fragment
           (one_transition 1710054000000 (-18000000) (-14400000)) always_up
           (Some "ang"%string) sample_db insertion_sort_Permutation).
  - intros t [|]; unfold one_transition, msPerDay; repeat case_match; lia.
  - reflexivity.
  - reflexivity.
  - right. vm_compute. eauto.
  - intros d Hd. unfold sample_db, sample_records in Hd. simpl in Hd.
    repeat (apply elem_of_cons in Hd as [->|Hd]);
      try (by apply elem_of_nil in Hd); vm_compute; split; discriminate.
  - intros s Hs. unfold sample_db, sample_sensors in Hs. simpl in Hs.
    repeat (apply elem_of_cons in Hs as [->|Hs]);
      try (by apply elem_of_nil in Hs); vm_compute; split; discriminate.
Defined.

Lemma post_sensor_text_stored_as_NaN_witness :
  post_sensor always_up 1700000009000
    {[ "temperature" := JString "hot";
       "humidity" := JNumber (integer_to_double 70) ]} sample_db
  = (insertOne (SensorReading.mk NaN (integer_to_double 70) 1700000009000)
       sample_db, created).
Proof.
  apply (post_sensor_text_stored_as_NaN always_up 1700000009000 _ sample_db
           "h" "ot" (JNumber (integer_to_double 70)) (integer_to_double 70));
    vm_compute; reflexivity.
Defined.

Lemma post_sensor_blank_stored_as_zero_witness :
  post_sensor always_up 1700000009000
    {[ "temperature" := JString "  ";
       "humidity" := JNumber (integer_to_double 70) ]} sample_db
  = (insertOne (SensorReading.mk pos_zero (integer_to_double 70)
                  1700000009000) sample_db, created).
Proof.
  apply (post_sensor_blank_stored_as_zero always_up 1700000009000 _ sample_db
           "  " (JNumber (integer_to_double 70)) (integer_to_double 70));
    vm_compute; reflexivity.
Defined.

Lemma post_sensor_digits_stored_as_number_witness :
  post_sensor always_up 1700000009000
    {[ "temperature" := JString "031";
       "humidity" := JNumber (integer_to_double 70) ]} sample_db
  = (insertOne (SensorReading.mk (integer_to_double 31) (integer_to_double 70)
                  1700000009000) sample_db, created).
Proof.
  apply (post_sensor_digits_stored_as_number always_up 1700000009000 _
           sample_db "031" 31 (JNumber (integer_to_double 70))
           (integer_to_double 70));
    vm_compute; reflexivity.
Defined.
